(** * Email sequence enrollment processor

    A shallow embedding of the sequence processing route
    ([processEnrollment] and the batch runner [POST]) together with the
    parts of the JavaScript runtime the route relies on: truthiness
    of [||] and [??], [String.prototype.replace] with a global literal
    pattern, and the [Date] arithmetic of [setMinutes], [setHours] and
    [setDate]. *)

From Stdlib Require Import ZArith Lia Bool Ascii String.
From stdpp Require Import base option list gmap strings pretty.

Local Open Scope Z_scope.

(** ** JavaScript values used by the route *)

Module JS.

(** A nullable string field: [None] stands for [null]/[undefined]. *)
Definition truthy (s : string) : bool :=
  match s with EmptyString => false | String _ _ => true end.

(** [a || b] on a nullable string with a nullable fallback. *)
Definition or_else (a b : option string) : option string :=
  match a with
  | Some s => if truthy s then Some s else b
  | None => b
  end.

(** [a || 'literal'] : the chain always ends in a string literal. *)
Definition or_lit (a : option string) (lit : string) : string :=
  match a with
  | Some s => if truthy s then s else lit
  | None => lit
  end.

(** [a ?? d] on a nullable number. *)
Definition nullish (a : option Z) (d : Z) : Z :=
  match a with Some v => v | None => d end.

(** *** [String.prototype.replace] with a global literal pattern

    The three patterns of the route have no capture groups, so in
    the replacement text only [$$], [$&], [$`] and [$'] are
    interpreted; every other [$] stands for itself. *)

Definition dollar : ascii := "$"%char.

Fixpoint GetSubstitution (matched before after rep : string) : string :=
  match rep with
  | EmptyString => EmptyString
  | String c tl =>
      if Ascii.eqb c dollar then
        match tl with
        | EmptyString => String c EmptyString
        | String d tl' =>
            if Ascii.eqb d "$"%char then String dollar (GetSubstitution matched before after tl')
            else if Ascii.eqb d "&"%char then matched +:+ GetSubstitution matched before after tl'
            else if Ascii.eqb d "`"%char then before +:+ GetSubstitution matched before after tl'
            else if Ascii.eqb d "'"%char then after +:+ GetSubstitution matched before after tl'
            else String c (GetSubstitution matched before after tl)
        end
      else String c (GetSubstitution matched before after tl)
  end.

Fixpoint drop_chars (n : nat) (s : string) : string :=
  match n, s with
  | O, _ => s
  | S k, String _ tl => drop_chars k tl
  | S _, EmptyString => EmptyString
  end.

(** The scan of a global replace: [before] is the part of the subject
    already passed, [skip] counts the characters of a match still to be
    dropped. *)
Fixpoint replace_scan (pat rep before : string) (skip : nat) (s : string) : string :=
  match s with
  | EmptyString => EmptyString
  | String c tl =>
      match skip with
      | S k => replace_scan pat rep (before +:+ String c EmptyString) k tl
      | O =>
          if String.prefix pat s then
            GetSubstitution pat before (drop_chars (String.length pat) s) rep
              +:+ replace_scan pat rep (before +:+ String c EmptyString)
                               (String.length pat - 1)%nat tl
          else String c (replace_scan pat rep (before +:+ String c EmptyString) O tl)
      end
  end.

(** [s.replace(/pat/g, rep)] for a non-empty literal [pat]. *)
Definition replace_g (pat rep s : string) : string :=
  replace_scan pat rep EmptyString O s.

(** The same scan inserting the replacement text verbatim. *)
Fixpoint replace_verbatim (pat v : string) (skip : nat) (s : string) : string :=
  match s with
  | EmptyString => EmptyString
  | String c tl =>
      match skip with
      | S k => replace_verbatim pat v k tl
      | O =>
          if String.prefix pat s then
            v +:+ replace_verbatim pat v (String.length pat - 1)%nat tl
          else String c (replace_verbatim pat v O tl)
      end
  end.

Definition replace_all (pat v s : string) : string := replace_verbatim pat v O s.

Fixpoint has_char (c : ascii) (s : string) : bool :=
  match s with
  | EmptyString => false
  | String d tl => Ascii.eqb c d || has_char c tl
  end.

End JS.

(** ** The [Date] object, as far as the route uses it

    A time value is a number of milliseconds since the epoch.  The host
    zone is the [LocalTZA] of the language: the offset of local time
    from UTC, which may change in the course of the year. *)

Module Date.

Definition msPerSecond : Z := 1000.
Definition msPerMinute : Z := 60000.
Definition msPerHour : Z := 3600000.
Definition msPerDay : Z := 86400000.
Definition maxTime : Z := 8640000000000000.

Definition Day (t : Z) : Z := t / msPerDay.
Definition TimeWithinDay (t : Z) : Z := t mod msPerDay.

Definition DaysInYear (y : Z) : Z :=
  if negb (y mod 4 =? 0) then 365
  else if negb (y mod 100 =? 0) then 366
  else if negb (y mod 400 =? 0) then 365
  else 366.

Definition DayFromYear (y : Z) : Z :=
  365 * (y - 1970) + (y - 1969) / 4 - (y - 1901) / 100 + (y - 1601) / 400.

(** The largest [y] with [DayFromYear y <= Day t], from an estimate
    that is off by at most one year. *)
Definition YearFromTime (t : Z) : Z :=
  let d := Day t in
  let y0 := 1970 + (400 * d) / 146097 in
  if DayFromYear (y0 + 1) <=? d then y0 + 1
  else if DayFromYear y0 <=? d then y0
  else y0 - 1.

Definition InLeapYear (t : Z) : Z :=
  if DaysInYear (YearFromTime t) =? 366 then 1 else 0.

Definition DayWithinYear (t : Z) : Z := Day t - DayFromYear (YearFromTime t).

(** Day number, within a year, of the first day of month [m]. *)
Definition monthStart (m leap : Z) : Z :=
  if m =? 0 then 0
  else if m =? 1 then 31
  else if m =? 2 then 59 + leap
  else if m =? 3 then 90 + leap
  else if m =? 4 then 120 + leap
  else if m =? 5 then 151 + leap
  else if m =? 6 then 181 + leap
  else if m =? 7 then 212 + leap
  else if m =? 8 then 243 + leap
  else if m =? 9 then 273 + leap
  else if m =? 10 then 304 + leap
  else 334 + leap.

Definition MonthFromTime (t : Z) : Z :=
  let d := DayWithinYear t in
  let leap := InLeapYear t in
  if d <? 31 then 0
  else if d <? 59 + leap then 1
  else if d <? 90 + leap then 2
  else if d <? 120 + leap then 3
  else if d <? 151 + leap then 4
  else if d <? 181 + leap then 5
  else if d <? 212 + leap then 6
  else if d <? 243 + leap then 7
  else if d <? 273 + leap then 8
  else if d <? 304 + leap then 9
  else if d <? 334 + leap then 10
  else 11.

Definition DateFromTime (t : Z) : Z :=
  DayWithinYear t - monthStart (MonthFromTime t) (InLeapYear t) + 1.

Definition HourFromTime (t : Z) : Z := (t / msPerHour) mod 24.
Definition MinFromTime (t : Z) : Z := (t / msPerMinute) mod 60.
Definition SecFromTime (t : Z) : Z := (t / msPerSecond) mod 60.
Definition msFromTime (t : Z) : Z := t mod msPerSecond.

Definition MakeTime (hour min sec ms : Z) : Z :=
  hour * msPerHour + min * msPerMinute + sec * msPerSecond + ms.

Definition MakeDay (year month date : Z) : Z :=
  let ym := year + month / 12 in
  let mn := month mod 12 in
  let leap := if DaysInYear ym =? 366 then 1 else 0 in
  DayFromYear ym + monthStart mn leap + date - 1.

Definition MakeDate (day time : Z) : Z := day * msPerDay + time.

(** [None] is the invalid date (a NaN time value). *)
Definition TimeClip (t : Z) : option Z :=
  if Z.abs t <=? maxTime then Some t else None.

(** [LocalTZA(t, isUTC)], in milliseconds: the offset in force at the
    instant [t] when [isUTC] holds, at the local time [t] otherwise. *)
Definition Zone : Type := Z -> bool -> Z.

(** A host that keeps one offset all year; UTC is [fixed 0]. *)
Definition fixed (offset : Z) : Zone := fun _ _ => offset.

Section Zone.
Variable tza : Zone.

Definition LocalTime (t : Z) : Z := t + tza t true.
Definition UTC (t : Z) : Z := t - tza t false.

Definition getMinutes (tv : Z) : Z := MinFromTime (LocalTime tv).
Definition getHours (tv : Z) : Z := HourFromTime (LocalTime tv).
Definition getDate (tv : Z) : Z := DateFromTime (LocalTime tv).

Definition setMinutes (tv m : Z) : option Z :=
  let t := LocalTime tv in
  TimeClip (UTC (MakeDate (Day t)
    (MakeTime (HourFromTime t) m (SecFromTime t) (msFromTime t)))).

Definition setHours (tv h : Z) : option Z :=
  let t := LocalTime tv in
  TimeClip (UTC (MakeDate (Day t)
    (MakeTime h (MinFromTime t) (SecFromTime t) (msFromTime t)))).

Definition setDate (tv dt : Z) : option Z :=
  let t := LocalTime tv in
  TimeClip (UTC (MakeDate
    (MakeDay (YearFromTime t) (MonthFromTime t) dt) (TimeWithinDay t))).

(** The offset in force at the local time [d] milliseconds after the
    local time of [now] is the one in force at [now]: no change of
    offset falls in between. *)
Definition steady (now d : Z) : Prop := tza (LocalTime now + d) false = tza now true.
End Zone.

End Date.

(** ** Data model *)

Inductive Status := active | paused | completed | replied.

Record Contact := {
  contact_id_of : string;
  contact_email : option string;
  contact_first_name : option string;
  contact_last_name : option string
}.

Record EmailSequenceStep := {
  template_id : string;
  subject_override : option string;
  delay_days : option Z;
  delay_unit : option string
}.

Record EmailSequence := {
  sequence_name : string;
  steps : list EmailSequenceStep;
  smtp_config_id : option string
}.

Record EnrollmentWithRelations := {
  enr_id : string;
  current_step : Z;
  enr_status : Status;
  next_send_at : option Z;
  contact : option Contact;
  sequence : option EmailSequence
}.

Record UserData := { user_id : string }.

Record EmailTemplate := {
  template_subject : option string;
  body_html : option string;
  body_text : option string
}.

Record SMTPConfig := {
  account_id : string;
  account_organization_id : string;
  account_name : option string;
  email_addr : option string;
  smtp_host : string;
  smtp_port : Z;
  smtp_user : string;
  smtp_pass_encrypted : option string
}.

(** The options handed to [nodemailer.createTransport], and the account
    attached to the transporter afterwards. *)
Record Transporter := {
  tr_host : string;
  tr_port : Z;
  tr_secure : bool;
  tr_auth_user : string;
  tr_auth_pass : string;
  tr_rejectUnauthorized : bool;
  tr_pool : bool;
  tr_maxConnections : Z;
  tr_maxMessages : Z;
  accountInfo : option SMTPConfig
}.

Record Mail := {
  mail_from : string;
  mail_to : string;
  mail_subject : string;
  mail_html : string
}.

(** A row of [emails]; [log_id] is assigned by the database. *)
Record EmailInsert := {
  log_account_id : string;
  log_organization_id : string;
  log_from_addr : option string;
  log_to_addr : string;
  log_subject : string;
  log_body_html : string;
  log_folder : string;
  log_is_read : bool;
  log_received_at : Z;
  log_enrollment_id : string
}.

Record EmailRow := { log_id : string; log_row : EmailInsert }.

Record Activity := {
  act_organization_id : string;
  act_contact_id : string;
  act_type : string;
  act_title : string;
  act_description : string;
  act_created_by : string
}.

(** A row of [sequence_enrollments]. *)
Record EnrollmentRow := {
  row_id : string;
  row_sequence_id : string;
  row_contact_id : string;
  row_current_step : Z;
  row_status : Status;
  row_next_send_at : option Z;
  row_updated_at : Z
}.

(** The object passed to [.update(...)] on [sequence_enrollments]: a
    field that is [None] is not part of the object.  [upd_next_send_at]
    is [Some None] for an explicit [null]. *)
Record EnrollmentUpdate := {
  upd_current_step : option Z;
  upd_updated_at : option Z;
  upd_next_send_at : option (option Z);
  upd_status : option Status
}.

Inductive ResultStatus := success | error.

Record Result := {
  res_id : string;
  res_status : ResultStatus;
  res_message : option string
}.

(** ** Environment and store *)

(** The error of a failed query as the [catch] of the route sees it:
    whether it is an [Error] object, and its message. *)
Record QueryError := {
  instanceof_Error : bool;
  query_message : string
}.

(** What the route imports or reads from the process environment, and
    what its surroundings answer.  The route looks at the answer of the
    insert into [emails] and of the due query; the answers of its
    updates and of the insert into [activities] it discards, so for
    those only whether the statement was refused is recorded. *)
Record Env := {
  tza : Date.Zone;
  app_url : option string;
  decrypt : string -> string + string;
  injectTracking : string -> string -> string -> string;
  email_insert_error : EmailInsert -> option string;
  email_id_gen : nat -> string;
  smtp_error : Transporter -> Mail -> option string;
  enroll_query_error : option QueryError;
  enrollment_update_refused : string -> EnrollmentUpdate -> bool;
  email_update_refused : string -> string -> bool;
  activity_insert_refused : Activity -> bool
}.

(** Calls that leave the process, in the order they are made. *)
Inductive Call :=
| CallUpdateEnrollment (id : string) (u : EnrollmentUpdate)
| CallSelectTemplate (id : string)
| CallSelectSmtpConfig (id : string)
| CallDecrypt (cipher : string)
| CallCreateTransport (t : Transporter)
| CallInsertEmail (row : EmailInsert) (created : bool)
| CallUpdateEmail (id : string) (body : string)
| CallSendMail (m : Mail) (delivered : bool)
| CallInsertActivity (a : Activity).

Record World := {
  clock : Z;
  sequence_enrollments : list EnrollmentRow;
  contacts : gmap string Contact;
  email_sequences : gmap string EmailSequence;
  email_templates : gmap string EmailTemplate;
  smtp_configs : gmap string SMTPConfig;
  emails : list EmailRow;
  activities : list Activity;
  transporters : gmap string Transporter;
  trace : list Call
}.

Definition with_enrollments (rows : list EnrollmentRow) (w : World) : World :=
  {| clock := clock w; sequence_enrollments := rows; contacts := contacts w;
     email_sequences := email_sequences w; email_templates := email_templates w;
     smtp_configs := smtp_configs w; emails := emails w; activities := activities w;
     transporters := transporters w; trace := trace w |}.

Definition with_emails (rows : list EmailRow) (w : World) : World :=
  {| clock := clock w; sequence_enrollments := sequence_enrollments w; contacts := contacts w;
     email_sequences := email_sequences w; email_templates := email_templates w;
     smtp_configs := smtp_configs w; emails := rows; activities := activities w;
     transporters := transporters w; trace := trace w |}.

Definition with_activities (rows : list Activity) (w : World) : World :=
  {| clock := clock w; sequence_enrollments := sequence_enrollments w; contacts := contacts w;
     email_sequences := email_sequences w; email_templates := email_templates w;
     smtp_configs := smtp_configs w; emails := emails w; activities := rows;
     transporters := transporters w; trace := trace w |}.

Definition with_transporters (m : gmap string Transporter) (w : World) : World :=
  {| clock := clock w; sequence_enrollments := sequence_enrollments w; contacts := contacts w;
     email_sequences := email_sequences w; email_templates := email_templates w;
     smtp_configs := smtp_configs w; emails := emails w; activities := activities w;
     transporters := m; trace := trace w |}.

(** The same store at another time: between two runs the clock moves. *)
Definition at_time (t : Z) (w : World) : World :=
  {| clock := t; sequence_enrollments := sequence_enrollments w; contacts := contacts w;
     email_sequences := email_sequences w; email_templates := email_templates w;
     smtp_configs := smtp_configs w; emails := emails w; activities := activities w;
     transporters := transporters w; trace := trace w |}.

Definition log (c : Call) (w : World) : World :=
  {| clock := clock w; sequence_enrollments := sequence_enrollments w; contacts := contacts w;
     email_sequences := email_sequences w; email_templates := email_templates w;
     smtp_configs := smtp_configs w; emails := emails w; activities := activities w;
     transporters := transporters w; trace := trace w ++ [c] |}.

Definition apply_update (u : EnrollmentUpdate) (r : EnrollmentRow) : EnrollmentRow :=
  {| row_id := row_id r;
     row_sequence_id := row_sequence_id r;
     row_contact_id := row_contact_id r;
     row_current_step := default (row_current_step r) (upd_current_step u);
     row_status := default (row_status r) (upd_status u);
     row_next_send_at := default (row_next_send_at r) (upd_next_send_at u);
     row_updated_at := default (row_updated_at r) (upd_updated_at u) |}.

(** [.update(u).eq('id', id)] *)
Definition update_where_id (id : string) (u : EnrollmentUpdate)
    (rows : list EnrollmentRow) : list EnrollmentRow :=
  map (fun r => if String.eqb (row_id r) id then apply_update u r else r) rows.

Definition set_body (id body : string) (rows : list EmailRow) : list EmailRow :=
  map (fun r =>
         if String.eqb (log_id r) id then
           {| log_id := log_id r;
              log_row := {| log_account_id := log_account_id (log_row r);
                            log_organization_id := log_organization_id (log_row r);
                            log_from_addr := log_from_addr (log_row r);
                            log_to_addr := log_to_addr (log_row r);
                            log_subject := log_subject (log_row r);
                            log_body_html := body;
                            log_folder := log_folder (log_row r);
                            log_is_read := log_is_read (log_row r);
                            log_received_at := log_received_at (log_row r);
                            log_enrollment_id := log_enrollment_id (log_row r) |} |}
         else r) rows.

(** What the three statements whose answer the route discards leave
    behind: a refused one changes nothing, and the route goes on. *)
Definition enrollments_after (env : Env) (id : string) (u : EnrollmentUpdate)
    (rows : list EnrollmentRow) : list EnrollmentRow :=
  if enrollment_update_refused env id u then rows else update_where_id id u rows.

Definition emails_after (env : Env) (id body : string) (rows : list EmailRow)
    : list EmailRow :=
  if email_update_refused env id body then rows else set_body id body rows.

Definition activities_after (env : Env) (a : Activity) (rows : list Activity)
    : list Activity :=
  if activity_insert_refused env a then rows else (rows ++ [a])%list.

(** ** Operations of the route on its surroundings *)

Inductive Op : Type -> Type :=
| NewDate : Op Z
| UpdateEnrollment (id : string) (u : EnrollmentUpdate) : Op unit
| SelectTemplate (id : string) : Op (option EmailTemplate)
| TransportersGet (key : string) : Op (option Transporter)
| TransportersSet (key : string) (t : Transporter) : Op unit
| SelectSmtpConfig (id : string) : Op (option SMTPConfig)
| Decrypt (cipher : string) : Op (string + string)
| CreateTransport (t : Transporter) : Op Transporter
| InsertEmail (row : EmailInsert) : Op (string + EmailRow)
| UpdateEmailBody (id : string) (body : string) : Op unit
| SendMail (t : Transporter) (m : Mail) : Op (option string)
| InsertActivity (a : Activity) : Op unit.

(** The operations the route awaits: control may pass to another
    enrollment of the batch while one of them is pending. *)
Definition is_await {B} (op : Op B) : bool :=
  match op with
  | UpdateEnrollment _ _ | SelectTemplate _ | SelectSmtpConfig _
  | InsertEmail _ | UpdateEmailBody _ _ | SendMail _ _ | InsertActivity _ => true
  | NewDate | TransportersGet _ | TransportersSet _ _ | Decrypt _ | CreateTransport _ => false
  end.

(** One operation on the store.  A run is short against the delays of
    a sequence: [new Date()] reads the clock of the store, which stands
    still during a run and is moved between runs with [at_time]. *)
Definition perform (env : Env) {B} (op : Op B) (w : World) : B * World :=
  match op in Op B return B * World with
  | NewDate => (clock w, w)
  | UpdateEnrollment id u =>
      (tt, log (CallUpdateEnrollment id u)
             (with_enrollments (enrollments_after env id u (sequence_enrollments w)) w))
  | SelectTemplate id => (email_templates w !! id, log (CallSelectTemplate id) w)
  | TransportersGet key => (transporters w !! key, w)
  | TransportersSet key t => (tt, with_transporters (<[key := t]> (transporters w)) w)
  | SelectSmtpConfig id => (smtp_configs w !! id, log (CallSelectSmtpConfig id) w)
  | Decrypt cipher => (decrypt env cipher, log (CallDecrypt cipher) w)
  | CreateTransport t => (t, log (CallCreateTransport t) w)
  | InsertEmail row =>
      match email_insert_error env row with
      | Some msg => (inl msg, log (CallInsertEmail row false) w)
      | None =>
          let rec := {| log_id := email_id_gen env (length (emails w)); log_row := row |} in
          (inr rec, log (CallInsertEmail row true) (with_emails (emails w ++ [rec]) w))
      end
  | UpdateEmailBody id body =>
      (tt, log (CallUpdateEmail id body)
             (with_emails (emails_after env id body (emails w)) w))
  | SendMail t m =>
      match smtp_error env t m with
      | Some msg => (Some msg, log (CallSendMail m false) w)
      | None => (None, log (CallSendMail m true) w)
      end
  | InsertActivity a =>
      (tt, log (CallInsertActivity a)
             (with_activities (activities_after env a (activities w)) w))
  end.

(** ** Asynchronous programs *)

Inductive Prog (A : Type) : Type :=
| Ret (a : A)
| Throw (msg : string)
| Do {B : Type} (op : Op B) (k : B -> Prog A).

Arguments Ret {A} a.
Arguments Throw {A} msg.
Arguments Do {A B} op k.

Fixpoint try_catch {A} (p : Prog A) (handler : string -> Prog A) : Prog A :=
  match p with
  | Ret a => Ret a
  | Throw msg => handler msg
  | Do op k => Do op (fun b => try_catch (k b) handler)
  end.

Notation "'let!' x := op 'in' k" := (Do op (fun x => k))
  (at level 10, x name, op at level 100, k at level 200).
Notation "'do!' op 'in' k" := (Do op (fun _ => k))
  (at level 10, op at level 100, k at level 200).

(** ** The advancer: [processEnrollment] *)

Local Open Scope string_scope.

Definition quote : string := String (ascii_of_nat 34) EmptyString.

Definition mkResult (id : string) (st : ResultStatus) (msg : string) : Result :=
  {| res_id := id; res_status := st; res_message := Some msg |}.

(** [steps[i]] for a number [i]. *)
Definition step_at (l : list EmailSequenceStep) (i : Z) : option EmailSequenceStep :=
  if (i <? 0)%Z then None else l !! Z.to_nat i.

(** [step.subject_override || template.subject || '(No Subject)'] *)
Definition effectiveSubject (step : EmailSequenceStep) (template : EmailTemplate) : string :=
  JS.or_lit (JS.or_else (subject_override step) (template_subject template)) "(No Subject)".

(** [template.body_html || template.body_text || ''] *)
Definition templateBody (template : EmailTemplate) : string :=
  JS.or_lit (JS.or_else (body_html template) (body_text template)) "".

(** The three [body.replace(...)] calls. *)
Definition replaceVariables (c : Contact) (body : string) : string :=
  let body := JS.replace_g "{{first_name}}" (JS.or_lit (contact_first_name c) "") body in
  let body := JS.replace_g "{{last_name}}" (JS.or_lit (contact_last_name c) "") body in
  JS.replace_g "{{email}}" (JS.or_lit (contact_email c) "") body.

Definition effectiveBody (template : EmailTemplate) (c : Contact) : string :=
  replaceVariables c (templateBody template).

(** The date written to [next_send_at] when a next step exists;
    [None] is the invalid date. *)
Definition nextSendAt (zone : Date.Zone) (now : Z) (nextStep : EmailSequenceStep)
    : option Z :=
  let delayValue := JS.nullish (delay_days nextStep) 1 in
  let delayUnit := JS.or_lit (delay_unit nextStep) "days" in
  if String.eqb delayUnit "minutes" then
    Date.setMinutes zone now (Date.getMinutes zone now + delayValue)
  else if String.eqb delayUnit "hours" then
    Date.setHours zone now (Date.getHours zone now + delayValue)
  else
    Date.setDate zone now (Date.getDate zone now + delayValue).

Definition transportOptions (account : SMTPConfig) (password : string) : Transporter :=
  {| tr_host := smtp_host account;
     tr_port := smtp_port account;
     tr_secure := (smtp_port account =? 465)%Z;
     tr_auth_user := smtp_user account;
     tr_auth_pass := password;
     tr_rejectUnauthorized := false;
     tr_pool := true;
     tr_maxConnections := 5;
     tr_maxMessages := 100;
     accountInfo := None |}.

Definition attachAccount (t : Transporter) (account : SMTPConfig) : Transporter :=
  {| tr_host := tr_host t; tr_port := tr_port t; tr_secure := tr_secure t;
     tr_auth_user := tr_auth_user t; tr_auth_pass := tr_auth_pass t;
     tr_rejectUnauthorized := tr_rejectUnauthorized t; tr_pool := tr_pool t;
     tr_maxConnections := tr_maxConnections t; tr_maxMessages := tr_maxMessages t;
     accountInfo := Some account |}.

Definition senderOf (account : SMTPConfig) : string :=
  quote +:+ JS.or_lit (account_name account) (smtp_user account) +:+ quote +:+ " <"
    +:+ JS.or_lit (email_addr account) (smtp_user account) +:+ ">".

Section Advancer.
Variable env : Env.

(** Step "Update Enrollment" of the source, after the activity row. *)
Definition updateEnrollment (enrollment : EnrollmentWithRelations)
    (sq : EmailSequence) : Prog Result :=
  let steps := steps sq in
  let currentStepIndex := current_step enrollment in
  let nextStepIndex := (currentStepIndex + 1)%Z in
  let! updated := NewDate in
  match step_at steps nextStepIndex with
  | Some nextStep =>
      let! now := NewDate in
      match nextSendAt (tza env) now nextStep with
      | None => Throw "Invalid time value"
      | Some iso =>
          do! UpdateEnrollment (enr_id enrollment)
                {| upd_current_step := Some nextStepIndex;
                   upd_updated_at := Some updated;
                   upd_next_send_at := Some (Some iso);
                   upd_status := None |} in
          Ret (mkResult (enr_id enrollment) success "Email sent successfully")
      end
  | None =>
      do! UpdateEnrollment (enr_id enrollment)
            {| upd_current_step := Some nextStepIndex;
               upd_updated_at := Some updated;
               upd_next_send_at := Some None;
               upd_status := Some completed |} in
      Ret (mkResult (enr_id enrollment) success "Email sent successfully")
  end.

(** Steps "Prepare Email" to "Log activity", once a transporter is at hand. *)
Definition sendStep (enrollment : EnrollmentWithRelations) (user : UserData)
    (c : Contact) (to : string) (sq : EmailSequence) (step : EmailSequenceStep)
    (template : EmailTemplate) (transporter : Transporter) : Prog Result :=
  match accountInfo transporter with
  | None => Throw "Cannot read properties of undefined (reading 'id')"
  | Some account =>
      let baseUrl := JS.or_lit (app_url env) "http://localhost:3000" in
      let subject := effectiveSubject step template in
      let body := effectiveBody template c in
      let! received := NewDate in
      let! inserted := InsertEmail
          {| log_account_id := account_id account;
             log_organization_id := account_organization_id account;
             log_from_addr := email_addr account;
             log_to_addr := to;
             log_subject := subject;
             log_body_html := body;
             log_folder := "sent";
             log_is_read := true;
             log_received_at := received;
             log_enrollment_id := enr_id enrollment |} in
      match inserted with
      | inl msg =>
          Ret (mkResult (enr_id enrollment) error ("Failed to create email log: " +:+ msg))
      | inr emailRecord =>
          let trackedBody := injectTracking env body (log_id emailRecord) baseUrl in
          do! UpdateEmailBody (log_id emailRecord) trackedBody in
          let! rejected := SendMail transporter
              {| mail_from := senderOf account;
                 mail_to := to;
                 mail_subject := subject;
                 mail_html := trackedBody |} in
          match rejected with
          | Some msg => Throw msg
          | None =>
              do! InsertActivity
                  {| act_organization_id := account_organization_id account;
                     act_contact_id := contact_id_of c;
                     act_type := "email";
                     act_title := "Sequence Email Sent: " +:+ subject;
                     act_description :=
                       "Sent as part of " +:+ quote +:+ sequence_name sq
                         +:+ quote +:+ " (Step " +:+ pretty (current_step enrollment + 1)%Z
                         +:+ ")";
                     act_created_by := user_id user |} in
              updateEnrollment enrollment sq
          end
      end
  end.

(** Step "Get Transporter (reused by SMTP config ID)". *)
Definition withTransporter (enrollment : EnrollmentWithRelations) (smtpId : string)
    (k : Transporter -> Prog Result) : Prog Result :=
  let! cached := TransportersGet smtpId in
  match cached with
  | Some transporter => k transporter
  | None =>
      let! account := SelectSmtpConfig smtpId in
      match account with
      | None =>
          Ret (mkResult (enr_id enrollment) error
                 ("SMTP config not found (ID: " +:+ smtpId +:+ ")"))
      | Some account =>
          if negb (JS.truthy (default "" (smtp_pass_encrypted account))) then
            Ret (mkResult (enr_id enrollment) error
                   "SMTP Password not configured for this account")
          else
            let! decrypted := Decrypt (default "" (smtp_pass_encrypted account)) in
            match decrypted with
            | inl msg => Throw msg
            | inr password =>
                let! created := CreateTransport (transportOptions account password) in
                let transporter := attachAccount created account in
                do! TransportersSet smtpId transporter in
                k transporter
            end
      end
  end.

Definition processBody (enrollment : EnrollmentWithRelations) (user : UserData)
    : Prog Result :=
  match contact enrollment with
  | None =>
      Ret (mkResult (enr_id enrollment) error "Enrollment has no valid contact or email")
  | Some c =>
      if negb (JS.truthy (default "" (contact_email c))) then
        Ret (mkResult (enr_id enrollment) error "Enrollment has no valid contact or email")
      else
        let to := default "" (contact_email c) in
        match sequence enrollment with
        | None => Throw "Cannot read properties of null (reading 'steps')"
        | Some sq =>
            let steps := steps sq in
            let currentStepIndex := current_step enrollment in
            if (currentStepIndex >=? Z.of_nat (length steps))%Z then
              let! updated := NewDate in
              do! UpdateEnrollment (enr_id enrollment)
                    {| upd_current_step := None;
                       upd_updated_at := Some updated;
                       upd_next_send_at := None;
                       upd_status := Some completed |} in
              Ret (mkResult (enr_id enrollment) success "Sequence completed (no more steps)")
            else
              match step_at steps currentStepIndex with
              | None => Throw "Cannot read properties of undefined (reading 'template_id')"
              | Some step =>
                  let! template := SelectTemplate (template_id step) in
                  match template with
                  | None =>
                      Ret (mkResult (enr_id enrollment) error
                             ("Template not found (ID: " +:+ template_id step +:+ ")"))
                  | Some template =>
                      if negb (JS.truthy (default "" (smtp_config_id sq))) then
                        Ret (mkResult (enr_id enrollment) error
                               "No SMTP account selected for this sequence.")
                      else
                        withTransporter enrollment (default "" (smtp_config_id sq))
                          (sendStep enrollment user c to sq step template)
                  end
              end
        end
  end.

Definition processEnrollment (enrollment : EnrollmentWithRelations) (user : UserData)
    : Prog Result :=
  try_catch (processBody enrollment user)
    (fun errorMessage => Ret (mkResult (enr_id enrollment) error errorMessage)).

End Advancer.

(** ** Running programs: one at a time, and as [Promise.all] runs them *)

Section Scheduler.
Variable env : Env.

(** A program run on its own, from start to end. *)
Fixpoint run {A} (p : Prog A) (w : World) : (string + A) * World :=
  match p with
  | Ret a => (inr a, w)
  | Throw msg => (inl msg, w)
  | Do op k => let '(b, w') := perform env op w in run (k b) w'
  end.

(** Synchronous code runs up to the next awaited operation. *)
Fixpoint advance {A} (p : Prog A) (w : World) : Prog A * World :=
  match p with
  | Do op k =>
      if is_await op then (p, w)
      else let '(b, w') := perform env op w in advance (k b) w'
  | _ => (p, w)
  end.

(** The pending operation of a suspended program completes. *)
Definition resume {A} (p : Prog A) (w : World) : Prog A * World :=
  match p with
  | Do op k => let '(b, w') := perform env op w in advance (k b) w'
  | _ => (p, w)
  end.

(** [batch.map(e => processEnrollment(...))]: every call runs to its
    first [await], in order. *)
Fixpoint start_all {A} (ps : list (Prog A)) (w : World) : list (Prog A) * World :=
  match ps with
  | [] => ([], w)
  | p :: ps' =>
      let '(p', w') := advance p w in
      let '(rest, w'') := start_all ps' w' in
      (p' :: rest, w'')
  end.

(** Completions arrive in the order [sched] lists the positions. *)
Fixpoint interleave {A} (sched : list nat) (ts : list (Prog A)) (w : World)
    : list (Prog A) * World :=
  match sched with
  | [] => (ts, w)
  | i :: sched' =>
      match ts !! i with
      | Some p =>
          let '(p', w') := resume p w in
          interleave sched' (<[i := p']> ts) w'
      | None => interleave sched' ts w
      end
  end.

(** Whatever is still pending completes, front to back. *)
Fixpoint drain {A} (ts : list (Prog A)) (w : World) : list (string + A) * World :=
  match ts with
  | [] => ([], w)
  | p :: ts' =>
      let '(r, w') := run p w in
      let '(rs, w'') := drain ts' w' in
      (r :: rs, w'')
  end.

Fixpoint all_fulfilled {A} (rs : list (string + A)) : string + list A :=
  match rs with
  | [] => inr []
  | inl msg :: _ => inl msg
  | inr a :: rs' =>
      match all_fulfilled rs' with
      | inl msg => inl msg
      | inr l => inr (a :: l)
      end
  end.

Definition promise_all {A} (sched : list nat) (ps : list (Prog A)) (w : World)
    : (string + list A) * World :=
  let '(ts, w1) := start_all ps w in
  let '(ts', w2) := interleave sched ts w1 in
  let '(rs, w3) := drain ts' w2 in
  (all_fulfilled rs, w3).

End Scheduler.

(** ** The batch runner: [POST] *)

Record ResponseBody := {
  body_success : option bool;
  body_processed : option Z;
  body_successCount : option Z;
  body_failureCount : option Z;
  body_details : option (list Result);
  body_message : option string;
  body_error : option string
}.

Record Response := { http_status : Z; json : ResponseBody }.

Definition errorResponse (msg : string) (code : Z) : Response :=
  {| http_status := code;
     json := {| body_success := None; body_processed := None; body_successCount := None;
                body_failureCount := None; body_details := None; body_message := None;
                body_error := Some msg |} |}.

Definition BATCH_SIZE : nat := 5.

(** [.eq('status', 'active').or('next_send_at.lte.<now>,next_send_at.is.null')] *)
Definition is_due (now : Z) (r : EnrollmentRow) : bool :=
  match row_status r with
  | active =>
      match row_next_send_at r with
      | None => true
      | Some t => (t <=? now)%Z
      end
  | _ => false
  end.

Definition with_relations (w : World) (r : EnrollmentRow) : EnrollmentWithRelations :=
  {| enr_id := row_id r;
     current_step := row_current_step r;
     enr_status := row_status r;
     next_send_at := row_next_send_at r;
     contact := contacts w !! row_contact_id r;
     sequence := email_sequences w !! row_sequence_id r |}.

Definition due_enrollments (w : World) : list EnrollmentWithRelations :=
  map (with_relations w) (List.filter (is_due (clock w)) (sequence_enrollments w)).

(** [enrollments.slice(i, i + BATCH_SIZE)] for [i = 0, BATCH_SIZE, ...]. *)
Fixpoint slices {A} (fuel : nat) (l : list A) : list (list A) :=
  match fuel with
  | O => []
  | S fuel' =>
      match l with
      | [] => []
      | _ => take BATCH_SIZE l :: slices fuel' (drop BATCH_SIZE l)
      end
  end.

Definition is_status (st : ResultStatus) (r : Result) : bool :=
  match st, res_status r with
  | success, success | error, error => true
  | _, _ => false
  end.

Definition count_status (st : ResultStatus) (results : list Result) : Z :=
  Z.of_nat (length (List.filter (is_status st) results)).

Section BatchRunner.
Variable env : Env.
(** The order in which awaited operations complete within batch [n]. *)
Variable schedule : nat -> list nat.

Fixpoint process_batches (user : UserData) (n : nat)
    (todo : list (list EnrollmentWithRelations)) (results : list Result) (w : World)
    : (string + list Result) * World :=
  match todo with
  | [] => (inr results, w)
  | batch :: todo' =>
      let '(r, w') :=
        promise_all env (schedule n) (map (fun e => processEnrollment env e user) batch) w in
      match r with
      | inl msg => (inl msg, w')
      | inr batchResults => process_batches user (S n) todo' (results ++ batchResults) w'
      end
  end.

Definition POST (user : option UserData) (w : World) : Response * World :=
  match user with
  | None => (errorResponse "Unauthorized" 401, w)
  | Some user =>
      match enroll_query_error env with
      | Some enrollError =>
          (errorResponse
             (if instanceof_Error enrollError then query_message enrollError
              else "Unknown error") 500, w)
      | None =>
          let enrollments := due_enrollments w in
          match enrollments with
          | [] =>
              ({| http_status := 200;
                  json := {| body_success := Some true;
                             body_processed := Some 0%Z;
                             body_successCount := None;
                             body_failureCount := None;
                             body_details := Some [];
                             body_message := Some "No enrollments due for processing";
                             body_error := None |} |}, w)
          | _ =>
              let w0 := with_transporters ∅ w in
              let '(r, w') :=
                process_batches user 0 (slices (length enrollments) enrollments) [] w0 in
              match r with
              | inl msg => (errorResponse msg 500, w')
              | inr results =>
                  ({| http_status := 200;
                      json := {| body_success := Some true;
                                 body_processed := Some (Z.of_nat (length results));
                                 body_successCount := Some (count_status success results);
                                 body_failureCount := Some (count_status error results);
                                 body_details := Some results;
                                 body_message := None;
                                 body_error := None |} |}, w')
              end
          end
      end
  end.

End BatchRunner.

(** ** The delay of a step, in the words of the specification

    A step's delay is an amount and a unit among minutes, hours and
    days; the amount defaults to 1 when unset and the unit to days. *)

Inductive DelayUnit := Minutes | Hours | Days.

Definition spec_unit (field : option string) : option DelayUnit :=
  match field with
  | None => Some Days
  | Some s =>
      if String.eqb s "minutes" then Some Minutes
      else if String.eqb s "hours" then Some Hours
      else if String.eqb s "days" then Some Days
      else None
  end.

Definition spec_unit_ms (u : DelayUnit) : Z :=
  match u with
  | Minutes => 60 * 1000
  | Hours => 60 * 60 * 1000
  | Days => 24 * 60 * 60 * 1000
  end%Z.

Definition spec_delay_ms (value : option Z) (u : DelayUnit) : Z :=
  (match value with Some v => v | None => 1 end * spec_unit_ms u)%Z.

(** A nullable string is present when it is a non-empty string. *)
Definition present (field : option string) (s : string) : Prop :=
  field = Some s /\ s <> "".

Definition absent (field : option string) : Prop :=
  field = None \/ field = Some "".

(** The calls made between two states of the store. *)
Definition calls_since (w w' : World) : list Call :=
  drop (length (trace w)) (trace w').

Definition is_send (c : Call) : bool :=
  match c with CallSendMail _ _ => true | _ => false end.

Definition is_decrypt (c : Call) : bool :=
  match c with CallDecrypt _ => true | _ => false end.

Definition is_create_transport (c : Call) : bool :=
  match c with CallCreateTransport _ => true | _ => false end.

Definition rows_of (id : string) (rows : list EnrollmentRow) : list EnrollmentRow :=
  List.filter (fun r => String.eqb (row_id r) id) rows.

(** The response contract of a successful run, in the words of the
    specification: [success], [processed], [successCount],
    [failureCount] and [details] are all there. *)
Definition conforms_to_contract (b : ResponseBody) : bool :=
  match body_success b, body_processed b, body_successCount b,
        body_failureCount b, body_details b with
  | Some _, Some _, Some _, Some _, Some _ => true
  | _, _, _, _, _ => false
  end.

Definition is_update (c : Call) : bool :=
  match c with CallUpdateEnrollment _ _ => true | _ => false end.

(** ** Enrollments of a batch

    [deliverable] says that nothing stands in the way of an
    enrollment: it has a contact with an email address and a sequence;
    if a step is left, the template of the step exists, the sending
    account exists with a password that decrypts, and the next send
    time is one a [Date] can hold. *)

Definition deliverable (env : Env) (w : World) (e : EnrollmentWithRelations) : bool :=
  match contact e, sequence e with
  | Some c, Some sq =>
      JS.truthy (default "" (contact_email c))
      && (0 <=? current_step e)%Z
      && match step_at (steps sq) (current_step e) with
         | None => true
         | Some step =>
             match email_templates w !! template_id step with
             | None => false
             | Some _ =>
                 JS.truthy (default "" (smtp_config_id sq))
                 && match smtp_configs w !! default "" (smtp_config_id sq) with
                    | None => false
                    | Some account =>
                        JS.truthy (default "" (smtp_pass_encrypted account))
                        && match decrypt env (default "" (smtp_pass_encrypted account)) with
                           | inl _ => false
                           | inr _ => true
                           end
                    end
                 && match step_at (steps sq) (current_step e + 1) with
                    | None => true
                    | Some nextStep =>
                        match nextSendAt (tza env) (clock w) nextStep with
                        | None => false
                        | Some _ => true
                        end
                    end
             end
         end
  | _, _ => false
  end.

(** The enrollment is at a step whose template does not exist. *)
Definition template_missing (w : World) (e : EnrollmentWithRelations) : bool :=
  match contact e, sequence e with
  | Some c, Some sq =>
      JS.truthy (default "" (contact_email c))
      && match step_at (steps sq) (current_step e) with
         | None => false
         | Some step =>
             match email_templates w !! template_id step with
             | None => true
             | Some _ => false
             end
         end
  | _, _ => false
  end.

(** What a batch leaves alone: templates, accounts and the clock, the
    rows of the enrollment [protected], and the fact that every cached
    transporter has its account attached. *)
Definition stable (w0 : World) (protected : string) (w : World) : Prop :=
  email_templates w = email_templates w0
  /\ smtp_configs w = smtp_configs w0
  /\ clock w = clock w0
  /\ rows_of protected (sequence_enrollments w)
     = rows_of protected (sequence_enrollments w0)
  /\ (forall key t, transporters w !! key = Some t -> is_Some (accountInfo t)).

(** The operations [stable] allows. *)
Definition allowed (protected : string) {B} (op : Op B) : Prop :=
  match op with
  | UpdateEnrollment id _ => id <> protected
  | TransportersSet _ t => is_Some (accountInfo t)
  | _ => True
  end.

(** A program that, from any store satisfying [Inv] and whatever else
    runs in between, keeps [Inv] and ends with a result satisfying [Q]. *)
Fixpoint safe (env : Env) (Inv : World -> Prop) {A} (Q : A -> Prop) (p : Prog A) : Prop :=
  match p with
  | Ret a => Q a
  | Throw _ => False
  | Do op k =>
      forall w, Inv w ->
        Inv (perform env op w).2 /\ safe env Inv Q (k (perform env op w).1)
  end.

(** The entry of the report for enrollment [e], when [broken] is the
    only enrollment that fails. *)
Definition expected (broken : string) (e : EnrollmentWithRelations) (r : Result) : Prop :=
  res_id r = enr_id e
  /\ res_status r = if String.eqb (enr_id e) broken then error else success.

(** The address the advancer sends to. *)
Definition recipient (e : EnrollmentWithRelations) : string :=
  match contact e with
  | Some c => default "" (contact_email c)
  | None => ""
  end.

(** The mail server takes every message to the contact of [e]. *)
Definition send_accepted (env : Env) (e : EnrollmentWithRelations) : Prop :=
  forall t m, mail_to m = recipient e -> smtp_error env t m = None.

(** The enrollment has a step left, so that its run cannot succeed
    without a send, and [sendMail] throws for every message to its
    contact. *)
Definition send_rejected (env : Env) (e : EnrollmentWithRelations) : Prop :=
  (forall sq, sequence e = Some sq -> (current_step e < Z.of_nat (length (steps sq)))%Z)
  /\ forall t m, mail_to m = recipient e -> smtp_error env t m <> None.

(** ** A concrete deployment, for examples *)

Module Scenario.

Definition env0 : Env :=
  {| tza := Date.fixed 0;
     app_url := None;
     decrypt := fun cipher => inr ("plain:" +:+ cipher);
     injectTracking := fun body id baseUrl =>
       body +:+ "<img src=" +:+ baseUrl +:+ "/open/" +:+ id +:+ ">";
     email_insert_error := fun _ => None;
     email_id_gen := fun n => "mail-" +:+ pretty n;
     smtp_error := fun _ _ => None;
     enroll_query_error := None;
     enrollment_update_refused := fun _ _ => false;
     email_update_refused := fun _ _ => false;
     activity_insert_refused := fun _ => false |}.

(** The same deployment with an [emails] table that rejects every insert. *)
Definition env_no_log : Env :=
  {| tza := Date.fixed 0;
     app_url := None;
     decrypt := decrypt env0;
     injectTracking := injectTracking env0;
     email_insert_error := fun _ => Some "permission denied for table emails";
     email_id_gen := email_id_gen env0;
     smtp_error := fun _ _ => None;
     enroll_query_error := None;
     enrollment_update_refused := fun _ _ => false;
     email_update_refused := fun _ _ => false;
     activity_insert_refused := fun _ => false |}.

Definition user0 : UserData := {| user_id := "user-1" |}.

Definition account0 : SMTPConfig :=
  {| account_id := "acc";
     account_organization_id := "org";
     account_name := Some "Sales";
     email_addr := Some "sales@x.io";
     smtp_host := "smtp.x.io";
     smtp_port := 465;
     smtp_user := "sales";
     smtp_pass_encrypted := Some "CIPHER" |}.

Definition template0 : EmailTemplate :=
  {| template_subject := Some "Hello";
     body_html := Some "Hi {{first_name}}";
     body_text := None |}.

Definition step0 (tid : string) (value : option Z) (unit : option string)
    : EmailSequenceStep :=
  {| template_id := tid; subject_override := None;
     delay_days := value; delay_unit := unit |}.

(** Two steps: the second one two hours after the first. *)
Definition sequence0 : EmailSequence :=
  {| sequence_name := "Drip";
     steps := [step0 "t1" (Some 0%Z) None; step0 "t1" (Some 2%Z) (Some "hours")];
     smtp_config_id := Some "acc" |}.

(** A sequence whose first step names a template that does not exist. *)
Definition sequence_broken : EmailSequence :=
  {| sequence_name := "Broken";
     steps := [step0 "gone" (Some 0%Z) None; step0 "t1" (Some 1%Z) None];
     smtp_config_id := Some "acc" |}.

Definition contact0 (name : string) : Contact :=
  {| contact_id_of := name;
     contact_email := Some (name +:+ "@y.io");
     contact_first_name := Some name;
     contact_last_name := None |}.

Definition contact_no_email : Contact :=
  {| contact_id_of := "zed"; contact_email := None;
     contact_first_name := Some "Zed"; contact_last_name := None |}.

Definition contact_dollar : Contact :=
  {| contact_id_of := "cash"; contact_email := Some "cash@y.io";
     contact_first_name := Some "Ca$$h"; contact_last_name := None |}.

Definition now0 : Z := 1730592000000.

(** New York in the night of 3 November 2024: four hours behind UTC
    until 06:00 UTC, when clocks go from 02:00 back to 01:00, and five
    from then on.  A local time that occurs twice is read with the
    offset before the change. *)
Definition zone_new_york : Date.Zone := fun t isUTC =>
  if isUTC then (if t <? 1730613600000 then -14400000 else -18000000)%Z
  else (if t <? 1730613600000 - 14400000 then -14400000 else -18000000)%Z.

(** 05:30 UTC on that night: 01:30 local time, before the change. *)
Definition half_past_one : Z := (now0 + 19800000)%Z.

Definition row0 (name sid : string) (step : Z) (due : option Z) : EnrollmentRow :=
  {| row_id := "e-" +:+ name; row_sequence_id := sid; row_contact_id := name;
     row_current_step := step; row_status := active;
     row_next_send_at := due; row_updated_at := 0 |}.

Definition world_of (rows : list EnrollmentRow) : World :=
  {| clock := now0;
     sequence_enrollments := rows;
     contacts := {[ "ann" := contact0 "ann"; "bob" := contact0 "bob";
                    "cyd" := contact0 "cyd"; "dee" := contact0 "dee";
                    "eve" := contact0 "eve"; "fay" := contact0 "fay";
                    "zed" := contact_no_email; "cash" := contact_dollar ]};
     email_sequences := {[ "s1" := sequence0; "s2" := sequence_broken ]};
     email_templates := {[ "t1" := template0 ]};
     smtp_configs := {[ "acc" := account0 ]};
     emails := [];
     activities := [];
     transporters := ∅;
     trace := [] |}.

(** Two due enrollments of the same sequence, hence of the same account. *)
Definition world_pair : World :=
  world_of [row0 "ann" "s1" 0 None; row0 "bob" "s1" 0 None].

(** Three due enrollments; the middle one has a missing template. *)
Definition world_one_broken : World :=
  world_of [row0 "ann" "s1" 0 None; row0 "bob" "s2" 0 None; row0 "cyd" "s1" 1 None].

(** Three due enrollments of one sequence, and a mail server that
    rejects what is sent to the second. *)
Definition world_three : World :=
  world_of [row0 "ann" "s1" 0 None; row0 "bob" "s1" 0 None; row0 "cyd" "s1" 1 None].

Definition env_reject_bob : Env :=
  {| tza := Date.fixed 0;
     app_url := None;
     decrypt := decrypt env0;
     injectTracking := injectTracking env0;
     email_insert_error := fun _ => None;
     email_id_gen := email_id_gen env0;
     smtp_error := fun _ m =>
       if String.eqb (mail_to m) "bob@y.io" then Some "550 Mailbox unavailable" else None;
     enroll_query_error := None;
     enrollment_update_refused := fun _ _ => false;
     email_update_refused := fun _ _ => false;
     activity_insert_refused := fun _ => false |}.

(** Six due enrollments of the same account: a batch of five and one more. *)
Definition world_six : World :=
  world_of [row0 "ann" "s1" 0 None; row0 "bob" "s1" 0 None; row0 "cyd" "s1" 0 None;
            row0 "dee" "s1" 0 None; row0 "eve" "s1" 0 None; row0 "fay" "s1" 0 None].

Definition world_idle : World :=
  world_of [row0 "ann" "s1" 0 (Some (now0 + 1)%Z)].

(** Past the last step, with and without a usable contact. *)
Definition world_finished : World :=
  world_of [row0 "ann" "s1" 2 (Some (now0 - 5)%Z); row0 "zed" "s1" 2 None].

Definition enrollment_of (w : World) (n : nat) : EnrollmentWithRelations :=
  with_relations w (nth n (sequence_enrollments w) (row0 "" "" 0 None)).

(** Every awaited operation takes the same time: completions arrive in
    the order the operations were started. *)
Definition fifo (members rounds : nat) : list nat :=
  concat (replicate rounds (seq 0 members)).

Definition schedule_fifo : nat -> list nat := fun _ => fifo 5 8.

(** Each enrollment completes before the next one resumes. *)
Definition schedule_serial : nat -> list nat := fun _ => [].

Definition count (f : Call -> bool) (w : World) : nat :=
  length (List.filter f (trace w)).

End Scenario.

(** ** Further cases and routes *)

(** ** More on a run: what its results and calls look like *)

(** Every result a program can return satisfies [Q], whatever its
    operations answer. *)
Fixpoint returns {A} (Q : A -> Prop) (p : Prog A) : Prop :=
  match p with
  | Ret a => Q a
  | Throw _ => True
  | Do op k => forall b, returns Q (k b)
  end.

Definition is_insert_email (c : Call) : bool :=
  match c with CallInsertEmail _ _ => true | _ => false end.

Definition is_select_account (c : Call) : bool :=
  match c with CallSelectSmtpConfig _ => true | _ => false end.

(** Further deployments, for examples. *)
Module Cases.

(** A mail server that rejects every message. *)
Definition env_smtp_down : Env :=
  {| tza := Date.fixed 0;
     app_url := None;
     decrypt := decrypt Scenario.env0;
     injectTracking := injectTracking Scenario.env0;
     email_insert_error := fun _ => None;
     email_id_gen := email_id_gen Scenario.env0;
     smtp_error := fun _ _ => Some "Connection refused";
     enroll_query_error := None;
     enrollment_update_refused := fun _ _ => false;
     email_update_refused := fun _ _ => false;
     activity_insert_refused := fun _ => false |}.

(** A second step a hundred million days after the first. *)
Definition sequence_far : EmailSequence :=
  {| sequence_name := "Far";
     steps := [Scenario.step0 "t1" (Some 0%Z) None;
               Scenario.step0 "t1" (Some 100000000%Z) (Some "days")];
     smtp_config_id := Some "acc" |}.

Definition world_far : World :=
  {| clock := Scenario.now0;
     sequence_enrollments := [Scenario.row0 "ann" "far" 0 None];
     contacts := {[ "ann" := Scenario.contact0 "ann" ]};
     email_sequences := {[ "far" := sequence_far ]};
     email_templates := {[ "t1" := Scenario.template0 ]};
     smtp_configs := {[ "acc" := Scenario.account0 ]};
     emails := [];
     activities := [];
     transporters := ∅;
     trace := [] |}.

(** One enrollment at the last step of its sequence. *)
Definition world_last_step : World :=
  Scenario.world_of [Scenario.row0 "ann" "s1" 1 None].

(** An enrollment of [sequence0] that has run to its end. *)
Definition row_done : EnrollmentRow :=
  {| row_id := "e-ann"; row_sequence_id := "s1"; row_contact_id := "ann";
     row_current_step := 2; row_status := completed;
     row_next_send_at := None; row_updated_at := 0 |}.

Definition world_done : World := Scenario.world_of [row_done].

End Cases.

(** ** The single-message route

    The other handler of the file: one message, to one address, through
    one account.  It keeps no state between requests, so it is written
    as a function on its store. *)

Module SendRoute.

(** What a thrown value carries, as far as the handler looks at it. *)
Record JsError := {
  err_message : option string;
  err_code : option string;
  err_response : option string
}.

(** The JSON body of the request. *)
Record SendRequest := {
  req_to : option string;
  req_subject : option string;
  req_body_html : option string;
  req_account_id : option string
}.

(** The object inserted into [emails]; it has no [enrollment_id]. *)
Record SentEmail := {
  sent_account_id : string;
  sent_organization_id : string;
  sent_from_addr : option string;
  sent_to_addr : string;
  sent_subject : string;
  sent_body_html : string;
  sent_folder : string;
  sent_is_read : bool;
  sent_received_at : Z
}.

Record SentRow := { sent_id : string; sent_row : SentEmail }.

(** The object inserted into [activities]; it has no [contact_id]. *)
Record SentActivity := {
  sact_organization_id : string;
  sact_type : string;
  sact_title : string;
  sact_description : string;
  sact_created_by : string
}.

(** The options of [nodemailer.createTransport]: no pool here. *)
Record Transport := {
  tp_host : string;
  tp_port : Z;
  tp_secure : bool;
  tp_auth_user : string;
  tp_auth_pass : string;
  tp_rejectUnauthorized : bool
}.

Record Deps := {
  dep_app_url : option string;
  dep_decrypt : option string -> JsError + string;
  dep_injectTracking : string -> string -> string -> string;
  dep_insert_fails : SentEmail -> bool;
  dep_id_gen : nat -> string;
  dep_send_error : Transport -> Mail -> option JsError;
  dep_update_fails : string -> string -> bool;
  dep_activity_fails : SentActivity -> bool
}.

Inductive Event :=
| EvSelectAccount (id : string)
| EvDecrypt (cipher : option string)
| EvInsertEmail (row : SentEmail) (created : bool)
| EvUpdateEmail (id : string) (body : string)
| EvCreateTransport (t : Transport)
| EvSendMail (m : Mail) (delivered : bool)
| EvInsertActivity (a : SentActivity).

Record Store := {
  st_clock : Z;
  st_smtp_configs : gmap string SMTPConfig;
  st_emails : list SentRow;
  st_activities : list SentActivity;
  st_events : list Event
}.

Record Response := {
  rsp_status : Z;
  rsp_success : option bool;
  rsp_error : option string
}.

Definition note (ev : Event) (s : Store) : Store :=
  {| st_clock := st_clock s; st_smtp_configs := st_smtp_configs s;
     st_emails := st_emails s; st_activities := st_activities s;
     st_events := st_events s ++ [ev] |}.

Definition put_emails (rows : list SentRow) (s : Store) : Store :=
  {| st_clock := st_clock s; st_smtp_configs := st_smtp_configs s;
     st_emails := rows; st_activities := st_activities s;
     st_events := st_events s |}.

Definition put_activities (rows : list SentActivity) (s : Store) : Store :=
  {| st_clock := st_clock s; st_smtp_configs := st_smtp_configs s;
     st_emails := st_emails s; st_activities := rows;
     st_events := st_events s |}.

Definition with_body (body : string) (r : SentEmail) : SentEmail :=
  {| sent_account_id := sent_account_id r;
     sent_organization_id := sent_organization_id r;
     sent_from_addr := sent_from_addr r;
     sent_to_addr := sent_to_addr r;
     sent_subject := sent_subject r;
     sent_body_html := body;
     sent_folder := sent_folder r;
     sent_is_read := sent_is_read r;
     sent_received_at := sent_received_at r |}.

(** [.update({ body_html }).eq('id', id)] *)
Definition update_body (id body : string) (rows : list SentRow) : list SentRow :=
  map (fun r => if String.eqb (sent_id r) id
                then {| sent_id := sent_id r; sent_row := with_body body (sent_row r) |}
                else r) rows.

(** The route awaits the update of the body and the insert of the
    activity and discards their answers: a refused statement changes
    nothing and goes unnoticed. *)
Definition emails_after (deps : Deps) (id body : string) (rows : list SentRow)
    : list SentRow :=
  if dep_update_fails deps id body then rows else update_body id body rows.

Definition activities_after (deps : Deps) (a : SentActivity) (rows : list SentActivity)
    : list SentActivity :=
  if dep_activity_fails deps a then rows else (rows ++ [a])%list.

Definition failure (code : Z) (msg : string) : Response :=
  {| rsp_status := code; rsp_success := None; rsp_error := Some msg |}.

(** The message chosen in the [catch] block. *)
Definition errorMessage (e : JsError) : string :=
  if bool_decide (err_code e = Some "EAUTH") then
    "Authentication failed. Check SMTP username/password."
  else if bool_decide (err_code e = Some "ETIMEDOUT") then
    "Connection timed out. Check SMTP Host/Port."
  else if JS.truthy (default "" (err_response e)) then
    "SMTP Error: " +:+ default "" (err_response e)
  else if JS.truthy (default "" (err_message e)) then
    default "" (err_message e)
  else "Failed to send email".

Definition transport_of (account : SMTPConfig) (password : string) : Transport :=
  {| tp_host := smtp_host account;
     tp_port := smtp_port account;
     tp_secure := (smtp_port account =? 465)%Z;
     tp_auth_user := smtp_user account;
     tp_auth_pass := password;
     tp_rejectUnauthorized := false |}.

Definition POST (deps : Deps) (user : option UserData)
    (request : JsError + SendRequest) (s : Store) : Response * Store :=
  match user with
  | None => (failure 401 "Unauthorized", s)
  | Some user =>
      match request with
      | inl e => (failure 500 (errorMessage e), s)
      | inr req =>
          let to := default "" (req_to req) in
          let subject := default "" (req_subject req) in
          let body_html := default "" (req_body_html req) in
          let wanted := default "" (req_account_id req) in
          if negb (JS.truthy to) || negb (JS.truthy subject)
             || negb (JS.truthy body_html) || negb (JS.truthy wanted) then
            (failure 400 "Missing required fields", s)
          else
            let s := note (EvSelectAccount wanted) s in
            match st_smtp_configs s !! wanted with
            | None => (failure 404 "Account not found", s)
            | Some account =>
                let s := note (EvDecrypt (smtp_pass_encrypted account)) s in
                match dep_decrypt deps (smtp_pass_encrypted account) with
                | inl e => (failure 500 (errorMessage e), s)
                | inr password =>
                    let row :=
                      {| sent_account_id := account_id account;
                         sent_organization_id := account_organization_id account;
                         sent_from_addr := email_addr account;
                         sent_to_addr := to;
                         sent_subject := subject;
                         sent_body_html := body_html;
                         sent_folder := "sent";
                         sent_is_read := true;
                         sent_received_at := st_clock s |} in
                    if dep_insert_fails deps row then
                      (failure 500 "Failed to initialize email tracking",
                       note (EvInsertEmail row false) s)
                    else
                      let emailRecord :=
                        {| sent_id := dep_id_gen deps (length (st_emails s));
                           sent_row := row |} in
                      let s := note (EvInsertEmail row true)
                                 (put_emails (st_emails s ++ [emailRecord]) s) in
                      let baseUrl := JS.or_lit (dep_app_url deps) "http://localhost:3000" in
                      let trackedBody :=
                        dep_injectTracking deps body_html (sent_id emailRecord) baseUrl in
                      let s := note (EvUpdateEmail (sent_id emailRecord) trackedBody)
                                 (put_emails
                                    (emails_after deps (sent_id emailRecord) trackedBody
                                       (st_emails s))
                                    s) in
                      let transporter := transport_of account password in
                      let s := note (EvCreateTransport transporter) s in
                      let mail :=
                        {| mail_from := senderOf account;
                           mail_to := to;
                           mail_subject := subject;
                           mail_html := trackedBody |} in
                      match dep_send_error deps transporter mail with
                      | Some e =>
                          (failure 500 (errorMessage e), note (EvSendMail mail false) s)
                      | None =>
                          let s := note (EvSendMail mail true) s in
                          let activity :=
                            {| sact_organization_id := account_organization_id account;
                               sact_type := "email";
                               sact_title := "Sent Email: " +:+ subject;
                               sact_description := "Sent to " +:+ to;
                               sact_created_by := user_id user |} in
                          let s := note (EvInsertActivity activity)
                                     (put_activities
                                        (activities_after deps activity (st_activities s))
                                        s) in
                          ({| rsp_status := 200; rsp_success := Some true;
                              rsp_error := None |}, s)
                      end
                end
            end
      end
  end.

Definition events_since (s s' : Store) : list Event :=
  drop (length (st_events s)) (st_events s').

Definition is_send_event (ev : Event) : bool :=
  match ev with EvSendMail _ _ => true | _ => false end.

Definition is_transport_event (ev : Event) : bool :=
  match ev with EvCreateTransport _ => true | _ => false end.

(** A deployment for examples: an account, a server that refuses the
    login, and a request. *)
Definition deps_auth_refused : Deps :=
  {| dep_app_url := None;
     dep_decrypt := fun cipher => inr ("plain:" +:+ default "" cipher);
     dep_injectTracking := fun body id baseUrl =>
       body +:+ "<img src=" +:+ baseUrl +:+ "/open/" +:+ id +:+ ">";
     dep_insert_fails := fun _ => false;
     dep_id_gen := fun n => "mail-" +:+ pretty n;
     dep_send_error := fun _ _ =>
       Some {| err_message := Some "Invalid login: 535 5.7.8";
               err_code := Some "EAUTH";
               err_response := Some "535 5.7.8 Username and Password not accepted" |};
     dep_update_fails := fun _ _ => false;
     dep_activity_fails := fun _ => false |}.

Definition deps_no_log : Deps :=
  {| dep_app_url := None;
     dep_decrypt := dep_decrypt deps_auth_refused;
     dep_injectTracking := dep_injectTracking deps_auth_refused;
     dep_insert_fails := fun _ => true;
     dep_id_gen := dep_id_gen deps_auth_refused;
     dep_send_error := fun _ _ => None;
     dep_update_fails := fun _ _ => false;
     dep_activity_fails := fun _ => false |}.

Definition store0 : Store :=
  {| st_clock := Scenario.now0;
     st_smtp_configs := {[ "acc" := Scenario.account0 ]};
     st_emails := [];
     st_activities := [];
     st_events := [] |}.

Definition request0 : SendRequest :=
  {| req_to := Some "ann@y.io"; req_subject := Some "Hello";
     req_body_html := Some "<p>Hi</p>"; req_account_id := Some "acc" |}.

Definition request_no_subject : SendRequest :=
  {| req_to := Some "ann@y.io"; req_subject := Some "";
     req_body_html := Some "<p>Hi</p>"; req_account_id := Some "acc" |}.

End SendRoute.

(** ** The browser side: enrollment hooks and their handlers *)

Module Client.

(** The objects [useEnrollInSequence] inserts. *)
Record NewEnrollment := {
  new_organization_id : string;
  new_sequence_id : string;
  new_contact_id : string;
  new_status : Status;
  new_current_step : Z;
  new_next_send_at : Z
}.

(** What the browser cannot see of the table: the identifiers it
    hands out and the statements it refuses. *)
Record Database := {
  row_id_gen : nat -> string;
  insert_error : list NewEnrollment -> option string;
  update_error : string -> EnrollmentUpdate -> option string;
  delete_error : string -> option string
}.

Inductive Toast :=
| ToastSuccess (title : string) (description : option string)
| ToastInfo (title : string) (description : option string)
| ToastError (title : string) (description : option string).

Inductive BulkAction := pause | resume | delete.

Definition action_name (a : BulkAction) : string :=
  match a with pause => "pause" | resume => "resume" | delete => "delete" end.

Definition dquote : string := String (Ascii.ascii_of_nat 34) EmptyString.

(** The row the table makes of an inserted object: the identifier and
    [updated_at] are the table's own. *)
Definition inserted_row (db : Database) (w : World) (i : nat) (n : NewEnrollment)
    : EnrollmentRow :=
  {| row_id := row_id_gen db (length (sequence_enrollments w) + i);
     row_sequence_id := new_sequence_id n;
     row_contact_id := new_contact_id n;
     row_current_step := new_current_step n;
     row_status := new_status n;
     row_next_send_at := Some (new_next_send_at n);
     row_updated_at := clock w |}.

(** [arg.contact_ids.map(contact_id => ({ ... }))]; [now] is the
    browser's clock. *)
Definition newEnrollments (now : Z) (sequence_id : string) (contact_ids : list string)
    (organization_id : string) : list NewEnrollment :=
  map (fun contact_id =>
         {| new_organization_id := organization_id;
            new_sequence_id := sequence_id;
            new_contact_id := contact_id;
            new_status := active;
            new_current_step := 0;
            new_next_send_at := now |}) contact_ids.

(** The mutation of [useEnrollInSequence]. *)
Definition useEnrollInSequence (db : Database) (now : Z)
    (sequence_id : string) (contact_ids : list string) (organization_id : string)
    (w : World) : (string + list EnrollmentRow) * World :=
  let enrollments := newEnrollments now sequence_id contact_ids organization_id in
  match insert_error db enrollments with
  | Some msg => (inl msg, w)
  | None =>
      let data := imap (inserted_row db w) enrollments in
      (inr data, with_enrollments (sequence_enrollments w ++ data) w)
  end.

(** The mutation of [useUpdateEnrollment]: [.single()] makes anything
    but one row an error, and the statement is then not applied. *)
Definition useUpdateEnrollment (db : Database) (id : string) (updates : EnrollmentUpdate)
    (w : World) : (string + EnrollmentRow) * World :=
  match update_error db id updates with
  | Some msg => (inl msg, w)
  | None =>
      match rows_of id (sequence_enrollments w) with
      | [r] =>
          (inr (apply_update updates r),
           with_enrollments (update_where_id id updates (sequence_enrollments w)) w)
      | _ => (inl "JSON object requested, multiple (or no) rows returned", w)
      end
  end.

(** The mutation of [useDeleteEnrollment]. *)
Definition useDeleteEnrollment (db : Database) (id : string) (w : World)
    : (string + unit) * World :=
  match delete_error db id with
  | Some msg => (inl msg, w)
  | None =>
      (inr tt,
       with_enrollments
         (List.filter (fun r => negb (String.eqb (row_id r) id)) (sequence_enrollments w)) w)
  end.

Definition status_only (s : Status) : EnrollmentUpdate :=
  {| upd_current_step := None; upd_updated_at := None;
     upd_next_send_at := None; upd_status := Some s |}.

Definition handleToggleStatus (db : Database) (enrollment : EnrollmentWithRelations)
    (w : World) : Toast * World :=
  let newStatus :=
    match enr_status enrollment with active => paused | _ => active end in
  match useUpdateEnrollment db (enr_id enrollment) (status_only newStatus) w with
  | (inr _, w') =>
      (ToastSuccess
         ("Enrollment " +:+ match newStatus with active => "resumed" | _ => "paused" end)
         None, w')
  | (inl _, w') => (ToastError "Failed to update status" None, w')
  end.

Definition handleDelete (db : Database) (id : string) (w : World) : Toast * World :=
  match useDeleteEnrollment db id w with
  | (inr _, w') => (ToastSuccess "Contact removed from sequence" None, w')
  | (inl _, w') => (ToastError "Failed to remove contact" None, w')
  end.

(** One turn of the loop of [handleBulkAction]: the rejection of the
    mutation is swallowed. *)
Definition bulk_step (db : Database) (action : BulkAction) (w : World) (id : string)
    : World :=
  match action with
  | delete => (useDeleteEnrollment db id w).2
  | resume => (useUpdateEnrollment db id (status_only active) w).2
  | pause => (useUpdateEnrollment db id (status_only paused) w).2
  end.

(** [handleBulkAction]: the toast if there is one, the new selection
    and the table. *)
Definition handleBulkAction (db : Database) (action : BulkAction)
    (selectedIds : list string) (w : World) : option Toast * list string * World :=
  match selectedIds with
  | [] => (None, selectedIds, w)
  | _ =>
      let w' := fold_left (bulk_step db action) selectedIds w in
      (Some (ToastSuccess
               ("Bulk action " +:+ dquote +:+ action_name action +:+ dquote +:+ " completed")
               None),
       [], w')
  end.

(** [handleAddEnrollments]: the toast if there is one, the contacts
    still selected and the table. *)
Definition handleAddEnrollments (db : Database) (now : Z)
    (sequenceId organizationId : string) (selectedToAdd : list string) (w : World)
    : option Toast * list string * World :=
  match selectedToAdd with
  | [] => (None, selectedToAdd, w)
  | _ =>
      match useEnrollInSequence db now sequenceId selectedToAdd organizationId w with
      | (inr _, w') =>
          (Some (ToastSuccess
                   ("Enrolled " +:+ pretty (length selectedToAdd) +:+ " contacts") None),
           [], w')
      | (inl _, w') =>
          (Some (ToastError "Failed to enroll contacts" None), selectedToAdd, w')
      end
  end.

(** A number in a template literal; a missing one reads [undefined]. *)
Definition shown (n : option Z) : string :=
  match n with
  | Some n => pretty n
  | None => "undefined"
  end.

(** [handleProcessSequences] on the parsed answer of the route, [None]
    when the request or the parsing fails.  A toast is its title and
    its description; how long it stays is left out. *)
Definition handleProcessSequences (result : option ResponseBody) : Toast :=
  match result with
  | None => ToastError "Failed to process sequences" None
  | Some result =>
      if default false (body_success result) then
        if bool_decide (body_processed result = Some 0%Z) then
          ToastInfo "No sequences due for processing" (body_message result)
        else
          ToastSuccess "Sequence processing complete"
            (Some ("Report: " +:+ shown (body_successCount result) +:+ " sent, "
                   +:+ shown (body_failureCount result) +:+ " failed."))
      else
        ToastError "Processing failed" (Some (JS.or_lit (body_error result) "Unknown error"))
  end.

(** Whether the loop of a bulk status change reaches row [r]: its id
    is selected, the table accepts the update, and the id names one row. *)
Definition bulk_changes (db : Database) (u : EnrollmentUpdate)
    (selectedIds : list string) (rows : list EnrollmentRow) (r : EnrollmentRow) : bool :=
  existsb (String.eqb (row_id r)) selectedIds
  && (bool_decide (update_error db (row_id r) u = None)
      && (length (rows_of (row_id r) rows) =? 1)%nat).

(** Whether the loop of a bulk removal deletes row [r]. *)
Definition bulk_deletes (db : Database) (selectedIds : list string) (r : EnrollmentRow)
    : bool :=
  existsb (String.eqb (row_id r)) selectedIds
  && bool_decide (delete_error db (row_id r) = None).

(** A table that accepts everything and one that refuses every update. *)
Definition db0 : Database :=
  {| row_id_gen := fun n => "row-" +:+ pretty n;
     insert_error := fun _ => None;
     update_error := fun _ _ => None;
     delete_error := fun _ => None |}.

Definition db_read_only : Database :=
  {| row_id_gen := row_id_gen db0;
     insert_error := fun _ => Some "permission denied";
     update_error := fun _ _ => Some "permission denied";
     delete_error := fun _ => Some "permission denied" |}.

End Client.

(** * Properties *)

(** ** Date arithmetic *)

Ltac div_mod_lia := Z.div_mod_to_equations; lia.

Lemma YearFromTime_spec t :
  (Date.DayFromYear (Date.YearFromTime t) <= Date.Day t
   < Date.DayFromYear (Date.YearFromTime t + 1))%Z.
Proof.
  unfold Date.YearFromTime. set (d := Date.Day t).
  set (y0 := (1970 + 400 * d / 146097)%Z).
  destruct (Z.leb_spec (Date.DayFromYear (y0 + 1)) d) as [H1|H1].
  - split; [exact H1|].
    subst y0. unfold Date.DayFromYear in *. div_mod_lia.
  - destruct (Z.leb_spec (Date.DayFromYear y0) d) as [H2|H2].
    + split; [exact H2 | exact H1].
    + split; [| replace (y0 - 1 + 1)%Z with y0 by lia; exact H2].
      subst y0. unfold Date.DayFromYear in *. div_mod_lia.
Qed.

Lemma time_decomposition t :
  (Date.MakeDate (Date.Day t)
     (Date.MakeTime (Date.HourFromTime t) (Date.MinFromTime t)
        (Date.SecFromTime t) (Date.msFromTime t)) = t)%Z.
Proof.
  unfold Date.MakeDate, Date.MakeTime, Date.Day, Date.HourFromTime, Date.MinFromTime,
    Date.SecFromTime, Date.msFromTime, Date.msPerDay, Date.msPerHour, Date.msPerMinute,
    Date.msPerSecond.
  div_mod_lia.
Qed.

Lemma setMinutes_add zone t v :
  Date.setMinutes zone t (Date.getMinutes zone t + v)
  = Date.TimeClip (Date.UTC zone (Date.LocalTime zone t + v * Date.msPerMinute)).
Proof.
  unfold Date.setMinutes, Date.getMinutes. cbn zeta. do 2 f_equal.
  pose proof (time_decomposition (Date.LocalTime zone t)) as H.
  unfold Date.MakeDate, Date.MakeTime in *. lia.
Qed.

Lemma setHours_add zone t v :
  Date.setHours zone t (Date.getHours zone t + v)
  = Date.TimeClip (Date.UTC zone (Date.LocalTime zone t + v * Date.msPerHour)).
Proof.
  unfold Date.setHours, Date.getHours. cbn zeta. do 2 f_equal.
  pose proof (time_decomposition (Date.LocalTime zone t)) as H.
  unfold Date.MakeDate, Date.MakeTime in *. lia.
Qed.

Lemma MonthFromTime_range t : (0 <= Date.MonthFromTime t <= 11)%Z.
Proof.
  unfold Date.MonthFromTime.
  repeat match goal with |- context [if ?b then _ else _] => destruct b end; lia.
Qed.

Lemma MakeDay_same_month t dt :
  Date.MakeDay (Date.YearFromTime t) (Date.MonthFromTime t) dt
  = (Date.Day t - Date.DateFromTime t + dt)%Z.
Proof.
  pose proof (MonthFromTime_range t) as Hm.
  unfold Date.MakeDay, Date.DateFromTime, Date.DayWithinYear, Date.InLeapYear.
  rewrite Z.div_small, Z.mod_small, Z.add_0_r by lia. lia.
Qed.

Lemma setDate_add zone t v :
  Date.setDate zone t (Date.getDate zone t + v)
  = Date.TimeClip (Date.UTC zone (Date.LocalTime zone t + v * Date.msPerDay)).
Proof.
  unfold Date.setDate, Date.getDate. cbn zeta. do 2 f_equal.
  rewrite MakeDay_same_month.
  unfold Date.MakeDate, Date.TimeWithinDay, Date.Day, Date.msPerDay.
  div_mod_lia.
Qed.

(** Where the offset does not change, local arithmetic is arithmetic
    on the time value. *)
Lemma UTC_steady zone now d :
  Date.steady zone now d -> Date.UTC zone (Date.LocalTime zone now + d) = (now + d)%Z.
Proof.
  unfold Date.steady, Date.UTC. intros ->. unfold Date.LocalTime. lia.
Qed.

Lemma steady_fixed offset now d : Date.steady (Date.fixed offset) now d.
Proof. reflexivity. Qed.

Lemma TimeClip_in_range t :
  (Z.abs t <= Date.maxTime)%Z -> Date.TimeClip t = Some t.
Proof.
  intros H. unfold Date.TimeClip. destruct (Z.leb_spec (Z.abs t) Date.maxTime); [reflexivity|lia].
Qed.

(** The three branches of [nextSendAt]: the amount is added to a
    field of the local time. *)
Lemma nextSendAt_minutes zone now s :
  JS.or_lit (delay_unit s) "days" = "minutes" ->
  nextSendAt zone now s
  = Date.TimeClip (Date.UTC zone (Date.LocalTime zone now
                                  + JS.nullish (delay_days s) 1 * Date.msPerMinute)).
Proof. intros H. unfold nextSendAt. rewrite H. cbn [String.eqb]. apply setMinutes_add. Qed.

Lemma nextSendAt_hours zone now s :
  JS.or_lit (delay_unit s) "days" = "hours" ->
  nextSendAt zone now s
  = Date.TimeClip (Date.UTC zone (Date.LocalTime zone now
                                  + JS.nullish (delay_days s) 1 * Date.msPerHour)).
Proof. intros H. unfold nextSendAt. rewrite H. apply setHours_add. Qed.

Lemma nextSendAt_setDate zone now s :
  JS.or_lit (delay_unit s) "days" <> "minutes" ->
  JS.or_lit (delay_unit s) "days" <> "hours" ->
  nextSendAt zone now s
  = Date.setDate zone now (Date.getDate zone now + JS.nullish (delay_days s) 1).
Proof.
  intros H1 H2. unfold nextSendAt.
  destruct (String.eqb_spec (JS.or_lit (delay_unit s) "days") "minutes"); [contradiction|].
  destruct (String.eqb_spec (JS.or_lit (delay_unit s) "days") "hours"); [contradiction|].
  reflexivity.
Qed.

Lemma nextSendAt_otherwise zone now s :
  JS.or_lit (delay_unit s) "days" <> "minutes" ->
  JS.or_lit (delay_unit s) "days" <> "hours" ->
  nextSendAt zone now s
  = Date.TimeClip (Date.UTC zone (Date.LocalTime zone now
                                  + JS.nullish (delay_days s) 1 * Date.msPerDay)).
Proof. intros H1 H2. rewrite nextSendAt_setDate by assumption. apply setDate_add. Qed.

Lemma nextSendAt_local zone now s u :
  spec_unit (delay_unit s) = Some u ->
  nextSendAt zone now s
  = Date.TimeClip (Date.UTC zone (Date.LocalTime zone now + spec_delay_ms (delay_days s) u)).
Proof.
  unfold spec_unit, spec_delay_ms. destruct (delay_unit s) as [str|] eqn:Hu.
  - destruct (String.eqb_spec str "minutes") as [->|Hm].
    { intros [= <-]. rewrite nextSendAt_minutes by (rewrite Hu; reflexivity). reflexivity. }
    destruct (String.eqb_spec str "hours") as [->|Hh].
    { intros [= <-]. rewrite nextSendAt_hours by (rewrite Hu; reflexivity). reflexivity. }
    destruct (String.eqb_spec str "days") as [->|Hd]; [|discriminate].
    intros [= <-]. rewrite nextSendAt_otherwise by (rewrite Hu; discriminate). reflexivity.
  - intros [= <-]. rewrite nextSendAt_otherwise by (rewrite Hu; discriminate). reflexivity.
Qed.

Lemma nextSendAt_spec zone now s u :
  spec_unit (delay_unit s) = Some u ->
  Date.steady zone now (spec_delay_ms (delay_days s) u) ->
  nextSendAt zone now s = Date.TimeClip (now + spec_delay_ms (delay_days s) u).
Proof.
  intros Hu Hz. rewrite (nextSendAt_local _ _ _ u Hu), UTC_steady by exact Hz. reflexivity.
Qed.

(** ** Running the advancer on its own *)

Lemma run_Do env {A B} (op : Op B) (k : B -> Prog A) w :
  run env (Do op k) w = run env (k (perform env op w).1) (perform env op w).2.
Proof. cbn [run]. destruct (perform env op w); reflexivity. Qed.

Lemma run_Ret env {A} (a : A) w : run env (Ret a) w = (inr a, w).
Proof. reflexivity. Qed.

Lemma run_Throw env {A} msg w : run env (@Throw A msg) w = (inl msg, w).
Proof. reflexivity. Qed.

Lemma run_try_catch env {A} (p : Prog A) (h : string -> Prog A) w :
  run env (try_catch p h) w =
  match run env p w with
  | (inl msg, w') => run env (h msg) w'
  | (inr a, w') => (inr a, w')
  end.
Proof.
  revert w. induction p as [a|msg|B op k IH]; intros w; cbn; try reflexivity.
  destruct (perform env op w) as [b w']. apply IH.
Qed.

(** Symbolic execution: one operation at a time, the store kept flat,
    and every test on the surroundings split. *)
Ltac small :=
  cbn [perform fst snd log at_time with_enrollments with_emails with_activities
       with_transporters clock sequence_enrollments contacts email_sequences
       email_templates smtp_configs emails activities transporters trace].

Ltac exec_step :=
  first
    [ rewrite run_Do
    | rewrite run_Ret
    | rewrite run_Throw
    | match goal with
      | |- context [match ?x with _ => _ end] =>
          lazymatch x with
          | context [match _ with _ => _ end] => fail
          | context [run _ _ _] => fail
          | _ => destruct x eqn:?
          end
      end ].

Ltac exec := small; repeat (exec_step; small).

Ltac unfold_advancer :=
  unfold processEnrollment; rewrite ?run_try_catch;
  unfold processBody, withTransporter, sendStep, updateEnrollment.

Lemma processEnrollment_returns env e user w :
  exists r,
    (run env (processEnrollment env e user) w).1 = inr r
    /\ res_id r = enr_id e
    /\ is_Some (res_message r)
    /\ (res_status r = error ->
        sequence_enrollments (run env (processEnrollment env e user) w).2
        = sequence_enrollments w).
Proof.
  unfold_advancer.
  exec; eexists; (split; [reflexivity|]); (split; [reflexivity|]);
    (split; [eexists; reflexivity|]); intros H; try discriminate H; reflexivity.
Qed.

Lemma calls_since_app w w' l : trace w' = (trace w ++ l)%list -> calls_since w w' = l.
Proof. unfold calls_since. intros ->. apply drop_app_length. Qed.

Lemma calls_since_refl w w' : trace w' = trace w -> calls_since w w' = [].
Proof. intros H. apply calls_since_app. rewrite H. symmetry. apply app_nil_r. Qed.

Ltac calls :=
  first
    [ erewrite calls_since_refl by reflexivity
    | erewrite calls_since_app by (small; rewrite <- ?app_assoc; reflexivity) ].

(** A test already settled by a hypothesis is not split. *)
Ltac use_hyp :=
  match goal with
  | H : ?x = _ |- context [match ?x with _ => _ end] => rewrite H
  end.

Ltac exec_with := small; repeat (first [use_hyp | exec_step]; small).

Ltac split_in H :=
  cbn [app In] in H;
  repeat (destruct H as [H|H]; try discriminate H); try contradiction.

Lemma step_at_beyond l i : (Z.of_nat (length l) <= i)%Z -> step_at l i = None.
Proof.
  intros Hi. unfold step_at. destruct (Z.ltb_spec i 0); [reflexivity|].
  apply lookup_ge_None. lia.
Qed.

Lemma step_at_Some l i s :
  step_at l i = Some s -> (0 <= i < Z.of_nat (length l))%Z.
Proof.
  unfold step_at. destruct (Z.ltb_spec i 0); [discriminate|].
  intros Hs. apply lookup_lt_Some in Hs. lia.
Qed.

(** ** The subject *)

Lemma effectiveSubject_cases step template s :
  (present (subject_override step) s
   \/ (absent (subject_override step) /\ present (template_subject template) s)
   \/ (absent (subject_override step) /\ absent (template_subject template)
       /\ s = "(No Subject)")) ->
  effectiveSubject step template = s.
Proof.
  unfold effectiveSubject, present, absent, JS.or_lit, JS.or_else.
  intros [[-> Hs]|[[[-> | ->] [-> Hs]]|[[-> | ->] [[-> | ->] ->]]]];
    cbn; try reflexivity; destruct s; cbn; congruence.
Qed.

(** C8: the subject of every message the advancer sends is the step's
    subject override when that is present, else the template's subject
    when that is present, else the literal "(No Subject)". *)
Theorem C8_effective_subject env e user w sq step template s m delivered :
  sequence e = Some sq ->
  step_at (steps sq) (current_step e) = Some step ->
  email_templates w !! template_id step = Some template ->
  (present (subject_override step) s
   \/ (absent (subject_override step) /\ present (template_subject template) s)
   \/ (absent (subject_override step) /\ absent (template_subject template)
       /\ s = "(No Subject)")) ->
  In (CallSendMail m delivered)
     (calls_since w (run env (processEnrollment env e user) w).2) ->
  mail_subject m = s.
Proof.
  intros Hsq Hstep Htpl Hs.
  apply effectiveSubject_cases in Hs.
  unfold_advancer. exec_with.
  all: calls; intros Hin; split_in Hin.
  all: injection Hin as <- _; cbn [mail_subject]; exact Hs.
Qed.

Lemma C8_effective_subject_witness :
  mail_subject
    {| mail_from := senderOf Scenario.account0;
       mail_to := "ann@y.io";
       mail_subject := "Hello";
       mail_html := "Hi ann<img src=http://localhost:3000/open/mail-0>" |} = "Hello".
Proof.
  apply (C8_effective_subject Scenario.env0
           (Scenario.enrollment_of Scenario.world_pair 0) Scenario.user0
           Scenario.world_pair Scenario.sequence0
           (Scenario.step0 "t1" (Some 0%Z) None) Scenario.template0 "Hello" _ true).
  - reflexivity.
  - reflexivity.
  - reflexivity.
  - right. left. split; [left; reflexivity | split; [reflexivity | discriminate]].
  - vm_compute. do 6 right. left. reflexivity.
Defined.

(** ** The body *)

Lemma GetSubstitution_plain matched before after rep :
  JS.has_char JS.dollar rep = false ->
  JS.GetSubstitution matched before after rep = rep.
Proof.
  induction rep as [|c tl IH]; [reflexivity|].
  cbn [JS.has_char JS.GetSubstitution]. intros H.
  apply orb_false_iff in H as [Hc Htl].
  rewrite Ascii.eqb_sym in Hc. rewrite Hc. f_equal. apply IH, Htl.
Qed.

Lemma replace_scan_plain pat rep before skip s :
  JS.has_char JS.dollar rep = false ->
  JS.replace_scan pat rep before skip s = JS.replace_verbatim pat rep skip s.
Proof.
  intros Hrep. revert before skip.
  induction s as [|c tl IH]; intros before skip; [reflexivity|].
  cbn [JS.replace_scan JS.replace_verbatim].
  destruct skip as [|k]; [|apply IH].
  destruct (String.prefix pat (String c tl)).
  - rewrite GetSubstitution_plain by exact Hrep. f_equal. apply IH.
  - f_equal. apply IH.
Qed.

Lemma replace_g_plain pat rep s :
  JS.has_char JS.dollar rep = false ->
  JS.replace_g pat rep s = JS.replace_all pat rep s.
Proof. apply replace_scan_plain. Qed.

(** Away from [$] in the contact's fields, the body is the template's
    HTML, else its text, else empty, with the three placeholders
    replaced everywhere; a missing field is replaced by the empty
    string. *)
Lemma effectiveBody_plain template c :
  JS.has_char JS.dollar (JS.or_lit (contact_first_name c) "") = false ->
  JS.has_char JS.dollar (JS.or_lit (contact_last_name c) "") = false ->
  JS.has_char JS.dollar (JS.or_lit (contact_email c) "") = false ->
  effectiveBody template c =
  JS.replace_all "{{email}}" (JS.or_lit (contact_email c) "")
    (JS.replace_all "{{last_name}}" (JS.or_lit (contact_last_name c) "")
       (JS.replace_all "{{first_name}}" (JS.or_lit (contact_first_name c) "")
          (templateBody template))).
Proof.
  intros H1 H2 H3. unfold effectiveBody, replaceVariables.
  rewrite !replace_g_plain by assumption. reflexivity.
Qed.

Example effectiveBody_null_first_name :
  effectiveBody
    {| template_subject := None;
       body_html := Some "Dear {{first_name}} {{last_name}}, {{first_name}}!";
       body_text := Some "unused" |}
    {| contact_id_of := "c"; contact_email := Some "c@y.io";
       contact_first_name := None; contact_last_name := Some "Doe" |}
  = "Dear  Doe, !".
Proof. reflexivity. Qed.

Example templateBody_fallbacks :
  templateBody {| template_subject := None; body_html := Some ""; body_text := Some "text" |}
  = "text"
  /\ templateBody {| template_subject := None; body_html := None; body_text := None |} = "".
Proof. split; reflexivity. Qed.

(** C6: a [$] pattern in a contact field is interpreted by [replace]:
    for the first name [Ca$$h] the body holds [Ca$h], where replacing
    the placeholder by the field would give [Ca$$h]. *)
Theorem C6_dollar_in_contact_field :
  effectiveBody Scenario.template0 Scenario.contact_dollar = "Hi Ca$h"
  /\ JS.replace_all "{{first_name}}" "Ca$$h" (templateBody Scenario.template0) = "Hi Ca$$h".
Proof. split; reflexivity. Qed.

(** ** The empty queue *)

(** C7 (as amended): with nothing due the runner answers 200 with
    [success = true], [processed = 0], no details and an explanatory
    message, and leaves the store as it was, so nothing is sent; the
    counts [successCount] and [failureCount] are not part of that
    answer. *)
Theorem C7_empty_queue env schedule user w :
  enroll_query_error env = None ->
  due_enrollments w = [] ->
  POST env schedule (Some user) w =
  ({| http_status := 200;
      json := {| body_success := Some true;
                 body_processed := Some 0%Z;
                 body_successCount := None;
                 body_failureCount := None;
                 body_details := Some [];
                 body_message := Some "No enrollments due for processing";
                 body_error := None |} |}, w).
Proof. intros Hq Hdue. unfold POST. rewrite Hq, Hdue. reflexivity. Qed.

Lemma C7_empty_queue_witness :
  (POST Scenario.env0 Scenario.schedule_fifo (Some Scenario.user0) Scenario.world_idle).2
  = Scenario.world_idle.
Proof.
  rewrite (C7_empty_queue Scenario.env0 Scenario.schedule_fifo Scenario.user0
             Scenario.world_idle); reflexivity.
Defined.

(** With nothing due the answer does not have the shape of the
    response contract: the two counts are missing. *)
Lemma C7_counts_missing :
  let response :=
    (POST Scenario.env0 Scenario.schedule_fifo (Some Scenario.user0) Scenario.world_idle).1 in
  body_success (json response) = Some true
  /\ body_processed (json response) = Some 0%Z
  /\ body_successCount (json response) = None
  /\ body_failureCount (json response) = None
  /\ conforms_to_contract (json response) = false.
Proof. vm_compute. repeat split. Qed.

(** ** The next send time *)




Example next_send_at_explicit_zero offset now :
  (Z.abs now <= Date.maxTime)%Z ->
  nextSendAt (Date.fixed offset) now (Scenario.step0 "t1" (Some 0%Z) (Some "days"))
  = Some now.
Proof.
  intros H. rewrite (nextSendAt_spec _ _ _ Days) by reflexivity.
  unfold spec_delay_ms. cbn [Scenario.step0 delay_days]. rewrite Z.mul_0_l, Z.add_0_r.
  apply TimeClip_in_range, H.
Qed.

Example next_send_at_default_amount offset now :
  nextSendAt (Date.fixed offset) now (Scenario.step0 "t1" None (Some "minutes"))
  = Date.TimeClip (now + 60000).
Proof. rewrite (nextSendAt_spec _ _ _ Minutes) by reflexivity. reflexivity. Qed.

(** C10: a unit that is neither "minutes" nor "hours" is treated as
    "days": the amount is added to the day of the month, and the result
    is the one the unit "days" gives. *)
Theorem C10_other_units_are_days zone now nextStep unit :
  delay_unit nextStep = Some unit ->
  unit <> "minutes" ->
  unit <> "hours" ->
  nextSendAt zone now nextStep
  = Date.setDate zone now (Date.getDate zone now + JS.nullish (delay_days nextStep) 1)
  /\ nextSendAt zone now nextStep
     = nextSendAt zone now
         {| template_id := template_id nextStep;
            subject_override := subject_override nextStep;
            delay_days := delay_days nextStep;
            delay_unit := Some "days" |}.
Proof.
  intros Hu Hm Hh.
  assert (H1 : JS.or_lit (delay_unit nextStep) "days" <> "minutes").
  { rewrite Hu. destruct unit; cbn; [discriminate|exact Hm]. }
  assert (H2 : JS.or_lit (delay_unit nextStep) "days" <> "hours").
  { rewrite Hu. destruct unit; cbn; [discriminate|exact Hh]. }
  rewrite (nextSendAt_setDate _ _ _ H1 H2).
  split; [reflexivity|].
  rewrite nextSendAt_setDate by (cbn; discriminate). reflexivity.
Qed.

Lemma C10_other_units_are_days_witness :
  nextSendAt Scenario.zone_new_york Scenario.half_past_one
    (Scenario.step0 "t1" (Some 3%Z) (Some "weeks"))
  = nextSendAt Scenario.zone_new_york Scenario.half_past_one
      (Scenario.step0 "t1" (Some 3%Z) (Some "days")).
Proof.
  refine (proj2 (C10_other_units_are_days Scenario.zone_new_york Scenario.half_past_one
                   (Scenario.step0 "t1" (Some 3%Z) (Some "weeks")) "weeks" _ _ _)).
  - reflexivity.
  - discriminate.
  - discriminate.
Defined.

(** ** Enrollments past their last step *)

Lemma row_id_apply_update u r : row_id (apply_update u r) = row_id r.
Proof. reflexivity. Qed.

Lemma update_where_id_idem id u rows :
  update_where_id id u (update_where_id id u rows) = update_where_id id u rows.
Proof.
  unfold update_where_id. rewrite map_map. apply map_ext. intros r.
  destruct (String.eqb (row_id r) id) eqn:Hid.
  - rewrite row_id_apply_update, Hid.
    destruct u as [cs ua ns st], r as [i s c step status due upd].
    unfold apply_update. cbn. f_equal.
    + destruct cs; reflexivity.
    + destruct st; reflexivity.
    + destruct ns; reflexivity.
    + destruct ua; reflexivity.
  - rewrite Hid. reflexivity.
Qed.

Lemma rows_of_updated id u rows st :
  upd_status u = Some st ->
  Forall (fun r => row_status r = st) (rows_of id (update_where_id id u rows)).
Proof.
  intros Hst. unfold rows_of, update_where_id. apply List.Forall_forall.
  intros r Hr. apply filter_In in Hr as [Hin Hid].
  apply in_map_iff in Hin as (r0 & <- & _).
  destruct (String.eqb (row_id r0) id) eqn:H0.
  - unfold apply_update. cbn. rewrite Hst. reflexivity.
  - rewrite H0 in Hid. discriminate.
Qed.

Lemma enrollments_after_accepted env id u rows :
  enrollment_update_refused env id u = false ->
  enrollments_after env id u rows = update_where_id id u rows.
Proof. unfold enrollments_after. intros ->. reflexivity. Qed.

Lemma enrollments_after_refused env id u rows :
  enrollment_update_refused env id u = true ->
  enrollments_after env id u rows = rows.
Proof. unfold enrollments_after. intros ->. reflexivity. Qed.

Lemma rows_of_after_status env id u rows st :
  upd_status u = Some st ->
  Forall (fun r => row_status r = st) (rows_of id rows) ->
  Forall (fun r => row_status r = st) (rows_of id (enrollments_after env id u rows)).
Proof.
  intros Hst Hrows. unfold enrollments_after.
  destruct (enrollment_update_refused env id u); [exact Hrows|].
  apply rows_of_updated, Hst.
Qed.

(** C1 (as amended): an enrollment with a contact that has an email
    address and with its sequence, whose [current_step] is at or past
    the number of steps, is completed without any message being sent:
    the run succeeds and asks for [status = completed]; where that
    update is accepted every row of the enrollment has
    [status = completed], and where it is refused the rows stay as
    they were and the run succeeds all the same.  A second run, at
    whatever time, gives the same result, sends nothing either and
    leaves completed rows completed.  An enrollment without a contact,
    or whose contact has no email address, is reported as an error
    whatever its step, and nothing is touched. *)
Theorem C1_auto_complete env user e w :
  let first := run env (processEnrollment env e user) w in
  let update :=
    {| upd_current_step := None; upd_updated_at := Some (clock w);
       upd_next_send_at := None; upd_status := Some completed |} in
  (forall c sq later,
      contact e = Some c ->
      JS.truthy (default "" (contact_email c)) = true ->
      sequence e = Some sq ->
      (Z.of_nat (length (steps sq)) <= current_step e)%Z ->
      let second := run env (processEnrollment env e user) (at_time later first.2) in
      first.1 = inr (mkResult (enr_id e) success "Sequence completed (no more steps)")
      /\ second.1 = first.1
      /\ List.filter is_send (calls_since w first.2) = []
      /\ List.filter is_send (calls_since (at_time later first.2) second.2) = []
      /\ (enrollment_update_refused env (enr_id e) update = false ->
          Forall (fun r => row_status r = completed)
            (rows_of (enr_id e) (sequence_enrollments first.2))
          /\ Forall (fun r => row_status r = completed)
               (rows_of (enr_id e) (sequence_enrollments second.2)))
      /\ (enrollment_update_refused env (enr_id e) update = true ->
          sequence_enrollments first.2 = sequence_enrollments w))
  /\ ((contact e = None
       \/ exists c, contact e = Some c
                    /\ JS.truthy (default "" (contact_email c)) = false) ->
      first = (inr (mkResult (enr_id e) error "Enrollment has no valid contact or email"),
               w)).
Proof.
  cbn zeta. split.
  - intros c sq later Hc Hmail Hsq Hlen.
    assert (Hge : (current_step e >=? Z.of_nat (length (steps sq)))%Z = true).
    { rewrite Z.geb_leb. apply Z.leb_le. exact Hlen. }
    assert (Hfirst : run env (processEnrollment env e user) w =
      (inr (mkResult (enr_id e) success "Sequence completed (no more steps)"),
       log (CallUpdateEnrollment (enr_id e)
              {| upd_current_step := None; upd_updated_at := Some (clock w);
                 upd_next_send_at := None; upd_status := Some completed |})
           (with_enrollments
              (enrollments_after env (enr_id e)
                 {| upd_current_step := None; upd_updated_at := Some (clock w);
                    upd_next_send_at := None; upd_status := Some completed |}
                 (sequence_enrollments w)) w))).
    { unfold_advancer. rewrite Hc, Hmail, Hsq. cbn [negb]. rewrite Hge.
      exec_with. reflexivity. }
    rewrite Hfirst. cbn [fst snd].
    split; [reflexivity|].
    unfold_advancer. rewrite Hc, Hmail, Hsq. cbn [negb]. rewrite Hge.
    exec_with.
    split; [reflexivity|].
    split; [calls; reflexivity|].
    split; [calls; reflexivity|].
    split.
    + intros Hok.
      assert (Hdone : Forall (fun r => row_status r = completed)
                        (rows_of (enr_id e)
                           (enrollments_after env (enr_id e)
                              {| upd_current_step := None; upd_updated_at := Some (clock w);
                                 upd_next_send_at := None; upd_status := Some completed |}
                              (sequence_enrollments w)))).
      { rewrite enrollments_after_accepted by exact Hok.
        apply rows_of_updated. reflexivity. }
      split; [exact Hdone|].
      apply rows_of_after_status; [reflexivity|exact Hdone].
    + intros Hno. apply enrollments_after_refused, Hno.
  - intros [Hnone|(c & Hc & Hmail)]; unfold_advancer.
    + rewrite Hnone. exec. reflexivity.
    + rewrite Hc, Hmail. cbn [negb]. exec. reflexivity.
Qed.

Lemma C1_auto_complete_witness :
  (run Scenario.env0
     (processEnrollment Scenario.env0 (Scenario.enrollment_of Scenario.world_finished 0)
        Scenario.user0) Scenario.world_finished).1
  = inr (mkResult "e-ann" success "Sequence completed (no more steps)").
Proof.
  refine (proj1 (proj1 (C1_auto_complete Scenario.env0 Scenario.user0
                          (Scenario.enrollment_of Scenario.world_finished 0)
                          Scenario.world_finished)
                   (Scenario.contact0 "ann") Scenario.sequence0
                   (Scenario.now0 + 60000)%Z _ _ _ _)).
  - reflexivity.
  - reflexivity.
  - reflexivity.
  - vm_compute. discriminate.
Defined.

(** Past the last step: without an email address on the contact the
    run reports an error and the enrollment stays active; with one, the
    enrollment is completed but keeps the [next_send_at] it had. *)
Lemma C1_not_always_completed :
  let w := Scenario.world_finished in
  let no_email := run Scenario.env0
    (processEnrollment Scenario.env0 (Scenario.enrollment_of w 1) Scenario.user0) w in
  let finished := run Scenario.env0
    (processEnrollment Scenario.env0 (Scenario.enrollment_of w 0) Scenario.user0) w in
  (current_step (Scenario.enrollment_of w 1) >= 2)%Z
  /\ no_email.1 = inr (mkResult "e-zed" error "Enrollment has no valid contact or email")
  /\ map row_status (rows_of "e-zed" (sequence_enrollments no_email.2)) = [active]
  /\ (current_step (Scenario.enrollment_of w 0) >= 2)%Z
  /\ map row_status (rows_of "e-ann" (sequence_enrollments finished.2)) = [completed]
  /\ map row_next_send_at (rows_of "e-ann" (sequence_enrollments finished.2))
     = [Some (Scenario.now0 - 5)%Z].
Proof. vm_compute. repeat split; discriminate. Qed.

(** ** The update of the enrollment *)

Lemma map_status_update id u rows :
  upd_status u = None ->
  map row_status (update_where_id id u rows) = map row_status rows.
Proof.
  intros Hu. unfold update_where_id. rewrite map_map. apply map_ext. intros r.
  destruct (String.eqb (row_id r) id); [|reflexivity].
  unfold apply_update. cbn. rewrite Hu. reflexivity.
Qed.

Lemma map_status_after env id u rows :
  upd_status u = None ->
  map row_status (enrollments_after env id u rows) = map row_status rows.
Proof.
  intros Hu. unfold enrollments_after.
  destruct (enrollment_update_refused env id u); [reflexivity|].
  apply map_status_update, Hu.
Qed.

(** C9: every update the advancer makes is on its own enrollment.
    When a next step exists the update carries [current_step],
    [updated_at] and [next_send_at] and no [status], so the status of
    every row stays what it was; a [status] is written, and then it is
    [completed], only when no next step exists. *)
Theorem C9_status_not_in_update env e user w sq :
  sequence e = Some sq ->
  let out := run env (processEnrollment env e user) w in
  (forall id u,
      In (CallUpdateEnrollment id u) (calls_since w out.2) ->
      id = enr_id e
      /\ match step_at (steps sq) (current_step e + 1) with
         | Some nextStep =>
             upd_status u = None
             /\ upd_current_step u = Some (current_step e + 1)%Z
             /\ upd_updated_at u = Some (clock w)
             /\ upd_next_send_at u = Some (nextSendAt (tza env) (clock w) nextStep)
         | None => upd_status u = Some completed
         end)
  /\ (is_Some (step_at (steps sq) (current_step e + 1)) ->
      map row_status (sequence_enrollments out.2) = map row_status (sequence_enrollments w))
  /\ (is_Some (step_at (steps sq) (current_step e + 1)) ->
      out.1 = inr (mkResult (enr_id e) success "Email sent successfully") ->
      exists u, List.filter is_update (calls_since w out.2)
                = [CallUpdateEnrollment (enr_id e) u]).
Proof.
  intros Hsq. cbn zeta.
  destruct (step_at (steps sq) (current_step e + 1)) as [nextStep|] eqn:Hnext.
  - unfold_advancer. rewrite Hsq. exec_with.
    all: try (exfalso; apply step_at_Some in Hnext;
              match goal with
              | H : (_ >=? _)%Z = true |- _ =>
                  rewrite Z.geb_leb in H; apply Z.leb_le in H; lia
              end).
    all: calls.
    all: split; [intros id u Hin; split_in Hin|].
    all: try (injection Hin as <- <-; repeat split; congruence).
    all: split; [intros _|intros _ H; try discriminate H].
    all: try reflexivity.
    all: try (apply map_status_after; reflexivity).
    all: eexists; reflexivity.
  - unfold_advancer. rewrite Hsq. exec_with.
    all: calls.
    all: split; [intros id u Hin; split_in Hin|].
    all: try (injection Hin as <- <-; split; reflexivity).
    all: split; intros [? Hnone]; discriminate Hnone.
Qed.

Lemma C9_status_not_in_update_witness :
  map row_status
    (sequence_enrollments
       (run Scenario.env0
          (processEnrollment Scenario.env0 (Scenario.enrollment_of Scenario.world_pair 0)
             Scenario.user0) Scenario.world_pair).2)
  = map row_status (sequence_enrollments Scenario.world_pair).
Proof.
  refine (proj1 (proj2 (C9_status_not_in_update Scenario.env0
                          (Scenario.enrollment_of Scenario.world_pair 0) Scenario.user0
                          Scenario.world_pair Scenario.sequence0 _)) _).
  - reflexivity.
  - eexists. reflexivity.
Defined.

(** ** The email log and the send *)

(** C5: in a run of the advancer every send comes after the creation
    of an email-log row of that enrollment, and the message carries
    the tracking made from that row's identifier; when the creation of
    the row fails, no send is made and the run reports an error. *)
Theorem C5_log_before_send env e user w :
  let out := run env (processEnrollment env e user) w in
  let made := calls_since w out.2 in
  (forall i m delivered,
      made !! i = Some (CallSendMail m delivered) ->
      exists j row,
        (j < i)%nat
        /\ made !! j = Some (CallInsertEmail row true)
        /\ log_enrollment_id row = enr_id e
        /\ mail_html m
           = injectTracking env (log_body_html row)
               (email_id_gen env (length (emails w)))
               (JS.or_lit (app_url env) "http://localhost:3000"))
  /\ (forall row,
        In (CallInsertEmail row false) made ->
        List.filter is_send made = []
        /\ exists r, out.1 = inr r /\ res_status r = error).
Proof.
  cbn zeta. unfold_advancer. exec.
  all: calls; cbn [app].
  all: split;
    [ intros i m delivered Hi;
      repeat (destruct i as [|i]; simpl in Hi; try discriminate Hi)
    | intros row Hin; split_in Hin ].
  all: try (split; [reflexivity | eexists; split; reflexivity]).
  all: injection Hi as <- _.
  all: first
         [ exists 1%nat; eexists; split; [lia|];
           split; [reflexivity|]; split; reflexivity
         | exists 4%nat; eexists; split; [lia|];
           split; [reflexivity|]; split; reflexivity ].
Qed.

(** ** Programs running side by side *)

Section Interleaving.
Variable env : Env.
Variable Inv : World -> Prop.

Lemma safe_Do_intro {A B} (Q : A -> Prop) (op : Op B) (k : B -> Prog A) :
  (forall w, Inv w ->
     Inv (perform env op w).2 /\ safe env Inv Q (k (perform env op w).1)) ->
  safe env Inv Q (Do op k).
Proof. intros H. exact H. Qed.

Lemma safe_Ret_intro {A} (Q : A -> Prop) (a : A) : Q a -> safe env Inv Q (Ret a).
Proof. intros H. exact H. Qed.

Lemma advance_safe {A} (Q : A -> Prop) (p : Prog A) w :
  Inv w -> safe env Inv Q p ->
  Inv (advance env p w).2 /\ safe env Inv Q (advance env p w).1.
Proof.
  revert w. induction p as [a|msg|B op k IH]; intros w Hw Hp; cbn [advance].
  - split; assumption.
  - split; assumption.
  - destruct (is_await op); [split; assumption|].
    destruct (Hp w Hw) as [Hw' Hk].
    destruct (perform env op w) as [b w']. apply IH; assumption.
Qed.

Lemma resume_safe {A} (Q : A -> Prop) (p : Prog A) w :
  Inv w -> safe env Inv Q p ->
  Inv (resume env p w).2 /\ safe env Inv Q (resume env p w).1.
Proof.
  intros Hw Hp. destruct p as [a|msg|B op k]; cbn [resume]; try (split; assumption).
  destruct (Hp w Hw) as [Hw' Hk].
  destruct (perform env op w) as [b w']. apply advance_safe; assumption.
Qed.

Lemma run_safe {A} (Q : A -> Prop) (p : Prog A) w :
  Inv w -> safe env Inv Q p ->
  exists a, (run env p w).1 = inr a /\ Q a /\ Inv (run env p w).2.
Proof.
  revert w. induction p as [a|msg|B op k IH]; intros w Hw Hp; cbn [run].
  - exists a. repeat split; assumption.
  - destruct Hp.
  - destruct (Hp w Hw) as [Hw' Hk].
    destruct (perform env op w) as [b w']. apply IH; assumption.
Qed.

Section Tasks.
Context {X A : Type} (post : X -> A -> Prop).


Lemma start_all_safe xs ps w :
  Inv w -> Forall2 (fun x p => safe env Inv (post x) p) xs ps ->
  Inv (start_all env ps w).2 /\ Forall2 (fun x p => safe env Inv (post x) p) xs (start_all env ps w).1.
Proof.
  intros Hw Hall. revert w Hw.
  induction Hall as [|x p xs ps Hp Hall IH]; intros w Hw; cbn [start_all].
  - split; [assumption|constructor].
  - destruct (advance_safe _ p w Hw Hp) as [Hw' Hp'].
    destruct (advance env p w) as [p' w'].
    destruct (IH w' Hw') as [Hw'' Hrest].
    destruct (start_all env ps w') as [rest w''].
    split; [assumption|constructor; assumption].
Qed.

Lemma interleave_safe sched xs ts w :
  Inv w -> Forall2 (fun x p => safe env Inv (post x) p) xs ts ->
  Inv (interleave env sched ts w).2 /\ Forall2 (fun x p => safe env Inv (post x) p) xs (interleave env sched ts w).1.
Proof.
  revert ts w. induction sched as [|i sched IH]; intros ts w Hw Hall;
    cbn [interleave].
  - split; assumption.
  - destruct (ts !! i) as [p|] eqn:Hi; [|apply IH; assumption].
    destruct (Forall2_lookup_r _ _ _ _ _ Hall Hi) as (x & Hx & Hp).
    destruct (resume_safe _ p w Hw Hp) as [Hw' Hp'].
    destruct (resume env p w) as [p' w']. apply IH; [assumption|].
    rewrite <- (list_insert_id xs i x Hx).
    apply Forall2_insert; assumption.
Qed.

Lemma drain_safe xs ts w :
  Inv w -> Forall2 (fun x p => safe env Inv (post x) p) xs ts ->
  exists rs,
    (drain env ts w).1 = map inr rs
    /\ Forall2 post xs rs
    /\ Inv (drain env ts w).2.
Proof.
  intros Hw Hall. revert w Hw.
  induction Hall as [|x p xs ts Hp Hall IH]; intros w Hw; cbn [drain].
  - exists []. repeat split; [constructor|assumption].
  - destruct (run_safe _ p w Hw Hp) as (a & Ha & Hq & Hw').
    destruct (run env p w) as [r w']. cbn [fst snd] in *. subst r.
    destruct (IH w' Hw') as (rs & Hrs & Hpost & Hw'').
    destruct (drain env ts w') as [rs' w'']. cbn [fst snd] in *. subst rs'.
    exists (a :: rs). repeat split; [constructor; assumption|assumption].
Qed.

Lemma all_fulfilled_inr (rs : list A) : all_fulfilled (map inr rs) = inr rs.
Proof.
  induction rs as [|a rs IH]; [reflexivity|].
  cbn [map all_fulfilled]. rewrite IH. reflexivity.
Qed.

Lemma promise_all_safe sched xs ps w :
  Inv w -> Forall2 (fun x p => safe env Inv (post x) p) xs ps ->
  exists rs,
    (promise_all env sched ps w).1 = inr rs
    /\ Forall2 post xs rs
    /\ Inv (promise_all env sched ps w).2.
Proof.
  intros Hw Hall. unfold promise_all.
  destruct (start_all_safe xs ps w Hw Hall) as [Hw1 Hall1].
  destruct (start_all env ps w) as [ts w1]. cbn [fst snd] in *.
  destruct (interleave_safe sched xs ts w1 Hw1 Hall1) as [Hw2 Hall2].
  destruct (interleave env sched ts w1) as [ts' w2]. cbn [fst snd] in *.
  destruct (drain_safe xs ts' w2 Hw2 Hall2) as (rs & Hrs & Hpost & Hw3).
  destruct (drain env ts' w2) as [rs' w3]. cbn [fst snd] in *. subst rs'.
  exists rs. rewrite all_fulfilled_inr. repeat split; assumption.
Qed.
End Tasks.
End Interleaving.

(** ** One enrollment among others *)

Lemma try_catch_Do {A B} (op : Op B) (k : B -> Prog A) h :
  try_catch (Do op k) h = Do op (fun b => try_catch (k b) h).
Proof. reflexivity. Qed.

Lemma try_catch_Ret {A} (a : A) h : try_catch (Ret a) h = Ret a.
Proof. reflexivity. Qed.

Lemma rows_of_update_other id protected u rows :
  id <> protected ->
  rows_of protected (update_where_id id u rows) = rows_of protected rows.
Proof.
  intros Hne. unfold rows_of, update_where_id.
  induction rows as [|r rows IH]; [reflexivity|].
  cbn [map List.filter].
  destruct (String.eqb_spec (row_id r) id) as [Hid|Hid].
  - rewrite row_id_apply_update.
    destruct (String.eqb_spec (row_id r) protected) as [Hp|Hp]; [congruence|].
    exact IH.
  - destruct (String.eqb (row_id r) protected); [f_equal|]; exact IH.
Qed.

Lemma rows_of_after_other env id protected u rows :
  id <> protected ->
  rows_of protected (enrollments_after env id u rows) = rows_of protected rows.
Proof.
  intros Hne. unfold enrollments_after.
  destruct (enrollment_update_refused env id u); [reflexivity|].
  apply rows_of_update_other, Hne.
Qed.

Lemma stable_perform env w0 protected {B} (op : Op B) w :
  stable w0 protected w -> allowed protected op ->
  stable w0 protected (perform env op w).2.
Proof.
  intros (Ht & Hs & Hc & Hr & Ha) Hop. unfold stable.
  destruct op; small; try (repeat split; assumption).
  - repeat split; try assumption.
    rewrite rows_of_after_other by exact Hop. exact Hr.
  - repeat split; try assumption.
    intros key' t'. destruct (decide (key = key')) as [->|Hne].
    + rewrite lookup_insert_eq. intros [= <-]. exact Hop.
    + rewrite lookup_insert_ne by exact Hne. apply Ha.
  - destruct (email_insert_error env row); small; repeat split; assumption.
  - destruct (smtp_error env t m); small; repeat split; assumption.
Qed.

Lemma step_at_None l i : step_at l i = None -> (i < 0 \/ Z.of_nat (length l) <= i)%Z.
Proof.
  unfold step_at. destruct (Z.ltb_spec i 0); [left; assumption|].
  intros H0. apply lookup_ge_None in H0. right. lia.
Qed.

Ltac safe_do :=
  rewrite ?try_catch_Do; apply safe_Do_intro;
  let w := fresh "w" in
  let Hinv := fresh "Hinv" in
  intros w Hinv;
  split;
    [ apply stable_perform;
      [ exact Hinv
      | cbn [allowed]; first [exact I | assumption | eexists; reflexivity] ]
    | small ].

Section Task.
Variable env : Env.
Variable w0 : World.
Variable protected : string.
Hypothesis insert_ok : forall row, email_insert_error env row = None.

Lemma updateEnrollment_safe e sq h :
  enr_id e <> protected ->
  match step_at (steps sq) (current_step e + 1) with
  | None => true
  | Some nextStep =>
      match nextSendAt (tza env) (clock w0) nextStep with
      | None => false
      | Some _ => true
      end
  end = true ->
  safe env (stable w0 protected) (expected protected e)
    (try_catch (updateEnrollment env e sq) h).
Proof.
  intros Hne Hnext. unfold updateEnrollment.
  assert (Hexp : expected protected e
                   (mkResult (enr_id e) success "Email sent successfully")).
  { split; [reflexivity|]. cbn [res_status mkResult].
    destruct (String.eqb_spec (enr_id e) protected); [contradiction|reflexivity]. }
  safe_do.
  destruct (step_at (steps sq) (current_step e + 1)) as [nextStep|].
  - safe_do. destruct Hinv0 as (_ & _ & -> & _).
    destruct (nextSendAt (tza env) (clock w0) nextStep); [|discriminate].
    safe_do. rewrite try_catch_Ret. exact Hexp.
  - safe_do. rewrite try_catch_Ret. exact Hexp.
Qed.

Lemma sendStep_safe e user c to sq step template transporter h :
  enr_id e <> protected ->
  (forall t m, mail_to m = to -> smtp_error env t m = None) ->
  is_Some (accountInfo transporter) ->
  match step_at (steps sq) (current_step e + 1) with
  | None => true
  | Some nextStep =>
      match nextSendAt (tza env) (clock w0) nextStep with
      | None => false
      | Some _ => true
      end
  end = true ->
  safe env (stable w0 protected) (expected protected e)
    (try_catch (sendStep env e user c to sq step template transporter) h).
Proof.
  intros Hne Hsend [account Hacc] Hnext. unfold sendStep. rewrite Hacc.
  safe_do. safe_do. rewrite insert_ok. small.
  safe_do. safe_do. rewrite Hsend by reflexivity. small.
  safe_do. apply updateEnrollment_safe; assumption.
Qed.

Lemma deliverable_safe e user :
  deliverable env w0 e = true ->
  enr_id e <> protected ->
  send_accepted env e ->
  safe env (stable w0 protected) (expected protected e) (processEnrollment env e user).
Proof.
  intros Hd Hne Hsend. unfold deliverable in Hd.
  unfold send_accepted, recipient in Hsend.
  unfold processEnrollment, processBody.
  destruct (contact e) as [c|]; [|discriminate].
  destruct (sequence e) as [sq|]; [|discriminate].
  apply andb_prop in Hd as [Hd Hstep]. apply andb_prop in Hd as [Hmail Hpos].
  rewrite Hmail. cbn [negb].
  destruct (current_step e >=? Z.of_nat (length (steps sq)))%Z eqn:Hge.
  - safe_do. safe_do. rewrite try_catch_Ret. apply safe_Ret_intro.
    split; [reflexivity|]. cbn [res_status mkResult].
    destruct (String.eqb_spec (enr_id e) protected); [contradiction|reflexivity].
  - destruct (step_at (steps sq) (current_step e)) as [step|] eqn:Hst.
    2:{ exfalso. apply step_at_None in Hst. apply Z.leb_le in Hpos.
        rewrite Z.geb_leb in Hge. apply Z.leb_gt in Hge. lia. }
    destruct (email_templates w0 !! template_id step) as [template|] eqn:Htpl;
      [|discriminate].
    apply andb_prop in Hstep as [Hstep Hnext]. apply andb_prop in Hstep as [Hsmtp Hacc].
    destruct (smtp_configs w0 !! default "" (smtp_config_id sq)) as [account|] eqn:Hcfg;
      [|discriminate].
    apply andb_prop in Hacc as [Hpass Hdec].
    destruct (decrypt env (default "" (smtp_pass_encrypted account)))
      as [|password] eqn:Hpw; [discriminate|].
    safe_do. destruct Hinv as (-> & _). rewrite Htpl, Hsmtp. cbn [negb].
    unfold withTransporter. safe_do.
    destruct (transporters w1 !! default "" (smtp_config_id sq)) as [cached|] eqn:Hget.
    + apply sendStep_safe; [exact Hne|exact Hsend| |exact Hnext].
      destruct Hinv as (_ & _ & _ & _ & Hall). exact (Hall _ _ Hget).
    + safe_do. destruct Hinv0 as (_ & -> & _). rewrite Hcfg, Hpass. cbn [negb].
      safe_do. rewrite Hpw. safe_do. safe_do.
      apply sendStep_safe; [exact Hne|exact Hsend| |exact Hnext]. eexists. reflexivity.
Qed.
End Task.

Lemma missing_template_safe env w0 e user :
  template_missing w0 e = true ->
  safe env (stable w0 (enr_id e)) (expected (enr_id e) e) (processEnrollment env e user).
Proof.
  intros Hm. unfold template_missing in Hm.
  unfold processEnrollment, processBody.
  destruct (contact e) as [c|]; [|discriminate].
  destruct (sequence e) as [sq|]; [|discriminate].
  apply andb_prop in Hm as [Hmail Hstep].
  rewrite Hmail. cbn [negb].
  destruct (step_at (steps sq) (current_step e)) as [step|] eqn:Hst; [|discriminate].
  destruct (email_templates w0 !! template_id step) eqn:Htpl; [discriminate|].
  destruct (current_step e >=? Z.of_nat (length (steps sq)))%Z eqn:Hge.
  { exfalso. apply step_at_Some in Hst. rewrite Z.geb_leb in Hge.
    apply Z.leb_le in Hge. lia. }
  rewrite ?try_catch_Do. apply safe_Do_intro. intros w Hinv.
  split; [apply stable_perform; [exact Hinv|exact I]|]. small.
  destruct Hinv as (-> & _). rewrite Htpl. rewrite try_catch_Ret. apply safe_Ret_intro.
  split; [reflexivity|]. cbn [res_status mkResult]. rewrite String.eqb_refl. reflexivity.
Qed.

(** ** The whole run *)

Lemma slices_concat {A} fuel (l : list A) :
  (length l <= fuel)%nat -> concat (slices fuel l) = l.
Proof.
  revert l. induction fuel as [|fuel IH]; intros l Hlen.
  - destruct l; [reflexivity|cbn in Hlen; lia].
  - destruct l as [|a l]; [reflexivity|].
    cbn [slices concat]. rewrite IH.
    + apply take_drop.
    + rewrite length_drop. cbn [length] in *. unfold BATCH_SIZE. lia.
Qed.

Lemma slices_Forall {A} (P : A -> Prop) fuel (l : list A) :
  Forall P l -> Forall (Forall P) (slices fuel l).
Proof.
  revert l. induction fuel as [|fuel IH]; intros l Hl; [constructor|].
  destruct l as [|a l]; [constructor|].
  cbn [slices]. constructor.
  - apply Forall_take, Hl.
  - apply IH, Forall_drop, Hl.
Qed.

Section Run.
Variable env : Env.
Variable schedule : nat -> list nat.
Variable user : UserData.
Variable Inv : World -> Prop.
Variable post : EnrollmentWithRelations -> Result -> Prop.

Lemma process_batches_safe todo n results w :
  Inv w ->
  Forall (Forall (fun e => safe env Inv (post e) (processEnrollment env e user))) todo ->
  exists rs,
    (process_batches env schedule user n todo results w).1 = inr (results ++ rs)%list
    /\ Forall2 post (concat todo) rs
    /\ Inv (process_batches env schedule user n todo results w).2.
Proof.
  intros Hw Htodo. revert n results w Hw.
  induction Htodo as [|batch todo Hbatch Htodo IH]; intros n results w Hw;
    cbn [process_batches concat].
  - exists []. rewrite app_nil_r. repeat split; [constructor|assumption].
  - assert (Hall : Forall2 (fun e p => safe env Inv (post e) p) batch
                     (map (fun e => processEnrollment env e user) batch)).
    { clear -Hbatch. induction Hbatch; constructor; assumption. }
    destruct (promise_all_safe env Inv post (schedule n) batch _ w Hw Hall)
      as (rs & Hrs & Hpost & Hw').
    destruct (promise_all env (schedule n) _ w) as [r w']. cbn [fst snd] in *.
    subst r.
    destruct (IH (S n) (results ++ rs)%list w' Hw') as (rs' & Hrs' & Hpost' & Hw'').
    exists (rs ++ rs')%list. rewrite app_assoc.
    repeat split; [exact Hrs'| |exact Hw''].
    apply Forall2_app; assumption.
Qed.
End Run.

Lemma count_expected broken es rs :
  Forall2 (expected broken) es rs ->
  count_status error rs
  = Z.of_nat (length (List.filter (fun e => String.eqb (enr_id e) broken) es))
  /\ count_status success rs
     = Z.of_nat (length (List.filter (fun e => negb (String.eqb (enr_id e) broken)) es)).
Proof.
  unfold count_status.
  induction 1 as [|e r es rs [_ Hst] _ [IHe IHs]]; [split; reflexivity|].
  assert (He : is_status error r = String.eqb (enr_id e) broken).
  { unfold is_status. rewrite Hst. destruct (String.eqb (enr_id e) broken); reflexivity. }
  assert (Hs : is_status success r = negb (String.eqb (enr_id e) broken)).
  { unfold is_status. rewrite Hst. destruct (String.eqb (enr_id e) broken); reflexivity. }
  cbn [List.filter]. rewrite He, Hs.
  destruct (String.eqb (enr_id e) broken); cbn [negb length]; split; lia.
Qed.

Lemma filter_none {A} (f : A -> bool) l :
  Forall (fun a => f a = false) l -> List.filter f l = [].
Proof.
  induction 1 as [|a l Ha _ IH]; [reflexivity|]. cbn. rewrite Ha. exact IH.
Qed.

Lemma filter_all {A} (f : A -> bool) l :
  Forall (fun a => f a = true) l -> List.filter f l = l.
Proof.
  induction 1 as [|a l Ha _ IH]; [reflexivity|]. cbn. rewrite Ha, IH. reflexivity.
Qed.

Lemma try_catch_Throw {A} msg (h : string -> Prog A) : try_catch (Throw msg) h = h msg.
Proof. reflexivity. Qed.

Section Rejected.
Variable env : Env.
Variable w0 : World.
Variable e : EnrollmentWithRelations.

Let failed := fun msg => Ret (mkResult (enr_id e) error msg).

Lemma error_expected msg : expected (enr_id e) e (mkResult (enr_id e) error msg).
Proof.
  split; [reflexivity|]. cbn [res_status mkResult]. rewrite String.eqb_refl. reflexivity.
Qed.

Lemma sendStep_rejected_safe user c to sq step template transporter :
  (forall t m, mail_to m = to -> smtp_error env t m <> None) ->
  safe env (stable w0 (enr_id e)) (expected (enr_id e) e)
    (try_catch (sendStep env e user c to sq step template transporter) failed).
Proof.
  intros Hsend. unfold sendStep.
  destruct (accountInfo transporter) as [account|]; [|apply error_expected].
  safe_do. safe_do.
  destruct (email_insert_error env _); small; [apply error_expected|].
  safe_do. safe_do.
  match goal with
  | |- context [smtp_error env ?t ?m] => destruct (smtp_error env t m) eqn:Hs
  end; small.
  - apply error_expected.
  - exfalso. eapply Hsend; [|exact Hs]. reflexivity.
Qed.

Lemma rejected_safe user :
  send_rejected env e ->
  safe env (stable w0 (enr_id e)) (expected (enr_id e) e) (processEnrollment env e user).
Proof.
  intros [Hleft Hsend]. unfold recipient in Hsend.
  unfold processEnrollment, processBody. fold failed.
  destruct (contact e) as [c|]; [|apply error_expected].
  destruct (negb (JS.truthy (default "" (contact_email c)))); [apply error_expected|].
  destruct (sequence e) as [sq|]; [|apply error_expected].
  specialize (Hleft sq eq_refl).
  destruct (current_step e >=? Z.of_nat (length (steps sq)))%Z eqn:Hge.
  { exfalso. rewrite Z.geb_leb in Hge. apply Z.leb_le in Hge. lia. }
  destruct (step_at (steps sq) (current_step e)) as [step|]; [|apply error_expected].
  safe_do.
  destruct (email_templates w !! template_id step) as [template|]; [|apply error_expected].
  destruct (negb (JS.truthy (default "" (smtp_config_id sq)))); [apply error_expected|].
  unfold withTransporter. safe_do.
  destruct (transporters w1 !! default "" (smtp_config_id sq)) as [cached|].
  { apply sendStep_rejected_safe, Hsend. }
  safe_do.
  destruct (smtp_configs w2 !! default "" (smtp_config_id sq)) as [account|];
    [|apply error_expected].
  destruct (negb (JS.truthy (default "" (smtp_pass_encrypted account))));
    [apply error_expected|].
  safe_do.
  destruct (decrypt env (default "" (smtp_pass_encrypted account))) as [msg|password];
    [apply error_expected|].
  safe_do. safe_do.
  apply sendStep_rejected_safe, Hsend.
Qed.
End Rejected.

(** What the body of the advancer leaves when it throws: the rows of
    every enrollment as they were. *)
Lemma thrown_keeps_rows env e user w msg w' :
  run env (processBody env e user) w = (inl msg, w') ->
  sequence_enrollments w' = sequence_enrollments w.
Proof.
  unfold processBody, withTransporter, sendStep, updateEnrollment. exec.
  all: intros H; try discriminate H.
  all: injection H as _ <-; reflexivity.
Qed.

(** C2: an exception thrown in the advancer never escapes it: whatever
    the body throws becomes an error entry for that enrollment with the
    exception's message, and the enrollment rows are as they were; a
    run always ends with an entry that carries a message, and an error
    entry means unchanged rows.  And in a run whose due enrollments
    are all deliverable but one, which has a missing template or whose
    message the mail server rejects, over an [emails] table that does
    not fail, the report has one entry per enrollment, one of them an
    error and the others successes, whatever the order in which the
    awaited operations complete; the rows of the failing enrollment are
    unchanged. *)
Theorem C2_batch_isolation env schedule user w before broken after env1 e1 w1 :
  enroll_query_error env = None ->
  (forall row, email_insert_error env row = None) ->
  due_enrollments w = (before ++ broken :: after)%list ->
  Forall (fun e => deliverable env w e = true /\ enr_id e <> enr_id broken
                   /\ send_accepted env e)
    (before ++ after)%list ->
  template_missing w broken = true \/ send_rejected env broken ->
  let out := POST env schedule (Some user) w in
  let one := run env1 (processEnrollment env1 e1 user) w1 in
  (forall msg w',
      run env1 (processBody env1 e1 user) w1 = (inl msg, w') ->
      one = (inr (mkResult (enr_id e1) error msg), w')
      /\ sequence_enrollments w' = sequence_enrollments w1)
  /\ (exists r,
      one.1 = inr r /\ res_id r = enr_id e1 /\ is_Some (res_message r)
      /\ (res_status r = error -> sequence_enrollments one.2 = sequence_enrollments w1))
  /\ http_status out.1 = 200%Z
  /\ body_success (json out.1) = Some true
  /\ body_processed (json out.1) = Some (Z.of_nat (length (due_enrollments w)))
  /\ body_failureCount (json out.1) = Some 1%Z
  /\ body_successCount (json out.1) = Some (Z.of_nat (length (due_enrollments w)) - 1)%Z
  /\ (exists details,
         body_details (json out.1) = Some details
         /\ Forall2 (expected (enr_id broken)) (due_enrollments w) details)
  /\ rows_of (enr_id broken) (sequence_enrollments out.2)
     = rows_of (enr_id broken) (sequence_enrollments w).
Proof.
  intros Hquery Hinsert Hdue Hothers Hbroken. cbn zeta.
  split.
  { intros msg w' Hthrown. split; [|eapply thrown_keeps_rows; exact Hthrown].
    unfold processEnrollment. rewrite run_try_catch, Hthrown. reflexivity. }
  split; [apply processEnrollment_returns|].
  set (Inv := stable w (enr_id broken)).
  assert (Hinv : Inv (with_transporters ∅ w)).
  { unfold Inv, stable. small. repeat split. intros key t Hk.
    rewrite lookup_empty in Hk. discriminate. }
  assert (Hsafe : Forall (fun e => safe env Inv (expected (enr_id broken) e)
                                     (processEnrollment env e user))
                    (due_enrollments w)).
  { rewrite Hdue. apply Forall_app in Hothers as [Hb Ha].
    apply Forall_app. split; [|constructor].
    - eapply Forall_impl; [exact Hb|]. intros e (Hd & Hne & Hok).
      apply deliverable_safe; assumption.
    - destruct Hbroken as [Hmissing|Hrejected].
      + apply missing_template_safe, Hmissing.
      + apply rejected_safe, Hrejected.
    - eapply Forall_impl; [exact Ha|]. intros e (Hd & Hne & Hok).
      apply deliverable_safe; assumption. }
  destruct (process_batches_safe env schedule user Inv (expected (enr_id broken))
              (slices (length (due_enrollments w)) (due_enrollments w)) 0 []
              (with_transporters ∅ w) Hinv
              (slices_Forall _ _ _ Hsafe)) as (rs & Hrs & Hpost & Hw').
  rewrite slices_concat in Hpost by lia.
  unfold POST. rewrite Hquery.
  destruct (due_enrollments w) as [|e0 es] eqn:Hall.
  { destruct before; discriminate Hdue. }
  destruct (process_batches env schedule user 0 _ [] (with_transporters ∅ w)) as [r w'].
  cbn [fst snd] in *. subst r. cbn [app fst snd json http_status body_success
    body_processed body_failureCount body_successCount body_details].
  destruct (count_expected _ _ _ Hpost) as [Herr Hok].
  rewrite Hdue in Herr, Hok.
  rewrite !List.filter_app in Herr, Hok. cbn [List.filter] in Herr, Hok.
  rewrite String.eqb_refl in Herr, Hok. cbn [negb] in Herr, Hok.
  apply Forall_app in Hothers as [Hb Ha].
  rewrite (filter_none _ before), (filter_none _ after) in Herr.
  2,3: eapply Forall_impl; [eassumption|]; intros e (_ & Hne & _);
       apply String.eqb_neq; exact Hne.
  rewrite (filter_all _ before), (filter_all _ after) in Hok.
  2,3: eapply Forall_impl; [eassumption|]; intros e (_ & Hne & _);
       apply negb_true_iff, String.eqb_neq; exact Hne.
  assert (Hlen : length rs = length (e0 :: es)).
  { symmetry. eapply Forall2_length. exact Hpost. }
  repeat split.
  - rewrite Hlen. reflexivity.
  - rewrite Herr. reflexivity.
  - rewrite Hok. f_equal. rewrite Hdue, !length_app. cbn [length]. lia.
  - exists rs. split; [reflexivity|exact Hpost].
  - destruct Hw' as (_ & _ & _ & Hrows & _). exact Hrows.
Qed.

Lemma C2_batch_isolation_witness :
  run Scenario.env_reject_bob
    (processEnrollment Scenario.env_reject_bob
       (Scenario.enrollment_of Scenario.world_three 1) Scenario.user0) Scenario.world_three
  = (inr (mkResult "e-bob" error "550 Mailbox unavailable"),
     (run Scenario.env_reject_bob
        (processBody Scenario.env_reject_bob
           (Scenario.enrollment_of Scenario.world_three 1) Scenario.user0)
        Scenario.world_three).2)
  /\ body_failureCount
       (json (POST Scenario.env_reject_bob Scenario.schedule_fifo (Some Scenario.user0)
                Scenario.world_three).1) = Some 1%Z
  /\ body_successCount
       (json (POST Scenario.env_reject_bob Scenario.schedule_fifo (Some Scenario.user0)
                Scenario.world_three).1) = Some 2%Z.
Proof.
  pose proof (C2_batch_isolation Scenario.env_reject_bob Scenario.schedule_fifo
                Scenario.user0 Scenario.world_three
                [Scenario.enrollment_of Scenario.world_three 0]
                (Scenario.enrollment_of Scenario.world_three 1)
                [Scenario.enrollment_of Scenario.world_three 2]
                Scenario.env_reject_bob (Scenario.enrollment_of Scenario.world_three 1)
                Scenario.world_three) as H.
  cbn zeta in H.
  destruct H as (Hthrown & _ & _ & _ & _ & Hfail & Hok & _).
  - reflexivity.
  - intros row. reflexivity.
  - vm_compute. reflexivity.
  - repeat constructor; try (vm_compute; reflexivity).
    + intros Heq; vm_compute in Heq; discriminate Heq.
    + intros t m Hm. cbn [Scenario.env_reject_bob smtp_error]. rewrite Hm. reflexivity.
    + intros Heq; vm_compute in Heq; discriminate Heq.
    + intros t m Hm. cbn [Scenario.env_reject_bob smtp_error]. rewrite Hm. reflexivity.
  - right. split.
    + intros sq Hsq. vm_compute in Hsq. injection Hsq as <-. vm_compute. reflexivity.
    + intros t m Hm. cbn [Scenario.env_reject_bob smtp_error]. rewrite Hm. discriminate.
  - split; [|split; [exact Hfail|rewrite Hok; vm_compute; reflexivity]].
    refine (proj1 (Hthrown "550 Mailbox unavailable" _ _)).
    vm_compute. reflexivity.
Defined.

Lemma C5_log_before_send_witness :
  List.filter is_send
    (calls_since Scenario.world_pair
       (run Scenario.env_no_log
          (processEnrollment Scenario.env_no_log
             (Scenario.enrollment_of Scenario.world_pair 0) Scenario.user0)
          Scenario.world_pair).2) = [].
Proof.
  refine (proj1 (proj2 (C5_log_before_send Scenario.env_no_log
                          (Scenario.enrollment_of Scenario.world_pair 0) Scenario.user0
                          Scenario.world_pair) _ _)).
  vm_compute. do 4 right. left. reflexivity.
Defined.

(** ** The transporters of a run *)

(** A transporter found in the map is used as it is: the run decrypts
    nothing and creates no transport. *)
Lemma cached_transporter_reused env e user w sq key t :
  sequence e = Some sq ->
  smtp_config_id sq = Some key ->
  transporters w !! key = Some t ->
  let made := calls_since w (run env (processEnrollment env e user) w).2 in
  List.filter is_decrypt made = [] /\ List.filter is_create_transport made = [].
Proof.
  intros Hsq Hid Ht. cbn zeta. unfold_advancer. rewrite Hsq, Hid.
  change (default "" (Some key)) with key.
  exec_with. all: calls; split; reflexivity.
Qed.

(** C4: two due enrollments of one sending account in the same batch,
    with awaited operations completing in the order they were started:
    both find the map empty, and the run decrypts the password twice
    and creates two transports.  When the first enrollment completes
    before the second resumes, there is one of each. *)
Theorem C4_transport_created_twice :
  let raced :=
    POST Scenario.env0 Scenario.schedule_fifo (Some Scenario.user0) Scenario.world_pair in
  let serial :=
    POST Scenario.env0 Scenario.schedule_serial (Some Scenario.user0) Scenario.world_pair in
  map (fun e => smtp_config_id <$> sequence e) (due_enrollments Scenario.world_pair)
  = [Some (Some "acc"); Some (Some "acc")]
  /\ body_successCount (json raced.1) = Some 2%Z
  /\ Scenario.count is_decrypt raced.2 = 2%nat
  /\ Scenario.count is_create_transport raced.2 = 2%nat
  /\ Scenario.count is_decrypt serial.2 = 1%nat
  /\ Scenario.count is_create_transport serial.2 = 1%nat.
Proof. vm_compute. repeat split. Qed.

(** Across batches the map is kept: of six enrollments of one account,
    the five of the first batch race, and the sixth reuses what they
    left. *)
Example transport_kept_across_batches :
  let out :=
    POST Scenario.env0 Scenario.schedule_fifo (Some Scenario.user0) Scenario.world_six in
  body_successCount (json out.1) = Some 6%Z
  /\ Scenario.count is_decrypt out.2 = 5%nat
  /\ Scenario.count is_send out.2 = 6%nat.
Proof. vm_compute. repeat split. Qed.

(** * Further properties *)

(** * Further properties of the sequence route *)

(** ** What a single run does to the store *)

(** X1: a run changes no row of another enrollment. *)
Theorem run_leaves_other_enrollments env e user w other :
  other <> enr_id e ->
  rows_of other (sequence_enrollments (run env (processEnrollment env e user) w).2)
  = rows_of other (sequence_enrollments w).
Proof.
  intros Hne. unfold_advancer. exec.
  all: try reflexivity.
  all: apply rows_of_after_other; congruence.
Qed.

Lemma run_leaves_other_enrollments_witness :
  rows_of "e-bob"
    (sequence_enrollments
       (run Scenario.env0
          (processEnrollment Scenario.env0 (Scenario.enrollment_of Scenario.world_pair 0)
             Scenario.user0) Scenario.world_pair).2)
  = rows_of "e-bob" (sequence_enrollments Scenario.world_pair).
Proof.
  apply (run_leaves_other_enrollments Scenario.env0
           (Scenario.enrollment_of Scenario.world_pair 0) Scenario.user0
           Scenario.world_pair "e-bob").
  discriminate.
Defined.

(** X2: a run makes at most one send and creates at most one email-log
    row; it records an activity only after a send that was delivered. *)
Theorem run_sends_at_most_once env e user w :
  let made := calls_since w (run env (processEnrollment env e user) w).2 in
  (length (List.filter is_send made) <= 1)%nat
  /\ (length (List.filter is_insert_email made) <= 1)%nat
  /\ (forall a, In (CallInsertActivity a) made -> exists m, In (CallSendMail m true) made).
Proof.
  cbn zeta. unfold_advancer. exec.
  all: calls; cbn [app List.filter is_send is_insert_email length].
  all: split; [lia|]; split; [lia|].
  all: intros a Hin; split_in Hin.
  all: eexists; cbn [In]; repeat (first [left; reflexivity | right]).
Qed.

Lemma set_body_keeps id body rows r :
  In r rows ->
  exists r',
    In r' (set_body id body rows)
    /\ log_id r' = log_id r
    /\ log_folder (log_row r') = log_folder (log_row r)
    /\ log_to_addr (log_row r') = log_to_addr (log_row r)
    /\ log_enrollment_id (log_row r') = log_enrollment_id (log_row r).
Proof.
  intros Hin. unfold set_body.
  eexists. split; [apply in_map, Hin|].
  destruct (String.eqb (log_id r) id); repeat split.
Qed.

Lemma emails_after_keeps env id body rows r :
  In r rows ->
  exists r',
    In r' (emails_after env id body rows)
    /\ log_id r' = log_id r
    /\ log_folder (log_row r') = log_folder (log_row r)
    /\ log_to_addr (log_row r') = log_to_addr (log_row r)
    /\ log_enrollment_id (log_row r') = log_enrollment_id (log_row r).
Proof.
  intros Hin. unfold emails_after.
  destruct (email_update_refused env id body); [|apply set_body_keeps, Hin].
  exists r. repeat split. exact Hin.
Qed.

Lemma length_emails_after env id body rows :
  length (emails_after env id body rows) = length rows.
Proof.
  unfold emails_after. destruct (email_update_refused env id body); [reflexivity|].
  unfold set_body. apply length_map.
Qed.

(** X3: when the mail server rejects the message, the run reports the
    server's error and leaves the enrollment rows and the activities as
    they were; the email-log row written before the send stays, in
    folder "sent". *)
Theorem rejected_send_stays_logged env e user w m :
  let out := run env (processEnrollment env e user) w in
  In (CallSendMail m false) (calls_since w out.2) ->
  (exists t msg,
      smtp_error env t m = Some msg
      /\ out.1 = inr (mkResult (enr_id e) error msg))
  /\ sequence_enrollments out.2 = sequence_enrollments w
  /\ activities out.2 = activities w
  /\ length (emails out.2) = S (length (emails w))
  /\ exists row,
       In row (emails out.2)
       /\ log_folder (log_row row) = "sent"
       /\ log_to_addr (log_row row) = mail_to m
       /\ log_enrollment_id (log_row row) = enr_id e.
Proof.
  cbn zeta. unfold_advancer. exec.
  all: calls; intros Hin; split_in Hin.
  all: injection Hin as <-.
  all: split; [eexists; eexists; split; [eassumption|reflexivity]|].
  all: split; [reflexivity|]; split; [reflexivity|].
  all: split; [rewrite length_emails_after, length_app; cbn [length]; lia|].
  all: match goal with
       | |- context [emails_after ?env' ?id ?body (?rows ++ [?rec])%list] =>
           destruct (emails_after_keeps env' id body (rows ++ [rec])%list rec)
             as (r' & Hr & _ & Hf & Ht & He);
             [apply in_or_app; right; left; reflexivity|];
             exists r'; repeat split; assumption
       end.
Qed.

Lemma rejected_send_stays_logged_witness :
  length (emails
    (run Cases.env_smtp_down
       (processEnrollment Cases.env_smtp_down
          (Scenario.enrollment_of Scenario.world_pair 0) Scenario.user0)
       Scenario.world_pair).2) = 1%nat.
Proof.
  refine (proj1 (proj2 (proj2 (proj2
    (rejected_send_stays_logged Cases.env_smtp_down
       (Scenario.enrollment_of Scenario.world_pair 0) Scenario.user0 Scenario.world_pair
       {| mail_from := senderOf Scenario.account0;
          mail_to := "ann@y.io";
          mail_subject := "Hello";
          mail_html := "Hi ann<img src=http://localhost:3000/open/mail-0>" |} _))))).
  vm_compute. do 6 right. left. reflexivity.
Defined.

(** X4: after the message of the last step is sent, and where the
    table accepts the update of the enrollment, every row of the
    enrollment has [current_step] equal to the number of steps,
    [status = completed] and [next_send_at = null], and is due at no
    time. *)
Theorem last_step_completes env e user w sq :
  sequence e = Some sq ->
  step_at (steps sq) (current_step e + 1) = None ->
  (forall u, enrollment_update_refused env (enr_id e) u = false) ->
  let out := run env (processEnrollment env e user) w in
  out.1 = inr (mkResult (enr_id e) success "Email sent successfully") ->
  (current_step e + 1 = Z.of_nat (length (steps sq)))%Z
  /\ Forall (fun r =>
               row_current_step r = Z.of_nat (length (steps sq))
               /\ row_status r = completed
               /\ row_next_send_at r = None
               /\ forall t, is_due t r = false)
       (rows_of (enr_id e) (sequence_enrollments out.2)).
Proof.
  intros Hsq Hnext Hok. cbn zeta.
  destruct (step_at (steps sq) (current_step e)) as [step|] eqn:Hst.
  2:{ unfold_advancer. rewrite Hsq. exec_with.
      all: intros Hres; discriminate Hres. }
  assert (Hlen : (current_step e + 1 = Z.of_nat (length (steps sq)))%Z).
  { apply step_at_Some in Hst. apply step_at_None in Hnext. lia. }
  unfold_advancer. rewrite Hsq. exec_with.
  all: intros Hres; try discriminate Hres.
  all: split; [exact Hlen|].
  all: rewrite enrollments_after_accepted by apply Hok.
  all: unfold rows_of, update_where_id; apply List.Forall_forall; intros r Hr;
    apply filter_In in Hr as [Hin Hid];
    apply in_map_iff in Hin as (r0 & <- & _);
    destruct (String.eqb (row_id r0) (enr_id e)) eqn:H0;
    [|rewrite H0 in Hid; discriminate Hid].
  all: unfold apply_update, is_due; cbn; rewrite <- Hlen; repeat split.
Qed.

Lemma last_step_completes_witness :
  (1 + 1 = Z.of_nat (length (steps Scenario.sequence0)))%Z.
Proof.
  refine (proj1 (last_step_completes Scenario.env0
                   (Scenario.enrollment_of Cases.world_last_step 0) Scenario.user0
                   Cases.world_last_step Scenario.sequence0 _ _ _ _)).
  - reflexivity.
  - reflexivity.
  - intros u. reflexivity.
  - vm_compute. reflexivity.
Defined.




(** X6: when the next send time is beyond what a [Date] holds, the
    message has been sent all the same, but the run reports "Invalid
    time value" and the enrollment rows are unchanged: a later run
    finds the enrollment at the same step. *)
Theorem invalid_next_date_sends_without_advancing env e user w sq nextStep m :
  sequence e = Some sq ->
  step_at (steps sq) (current_step e + 1) = Some nextStep ->
  nextSendAt (tza env) (clock w) nextStep = None ->
  let out := run env (processEnrollment env e user) w in
  In (CallSendMail m true) (calls_since w out.2) ->
  out.1 = inr (mkResult (enr_id e) error "Invalid time value")
  /\ sequence_enrollments out.2 = sequence_enrollments w
  /\ List.filter is_update (calls_since w out.2) = [].
Proof.
  intros Hsq Hnext Hdate. cbn zeta. unfold_advancer. rewrite Hsq. exec_with.
  all: calls; intros Hin; split_in Hin.
  all: repeat split; reflexivity.
Qed.

Lemma invalid_next_date_sends_without_advancing_witness :
  sequence_enrollments
    (run Scenario.env0
       (processEnrollment Scenario.env0 (Scenario.enrollment_of Cases.world_far 0)
          Scenario.user0) Cases.world_far).2
  = sequence_enrollments Cases.world_far.
Proof.
  refine (proj1 (proj2 (invalid_next_date_sends_without_advancing Scenario.env0
            (Scenario.enrollment_of Cases.world_far 0) Scenario.user0 Cases.world_far
            Cases.sequence_far
            (Scenario.step0 "t1" (Some 100000000%Z) (Some "days"))
            {| mail_from := senderOf Scenario.account0;
               mail_to := "ann@y.io";
               mail_subject := "Hello";
               mail_html := "Hi ann<img src=http://localhost:3000/open/mail-0>" |}
            _ _ _ _))).
  - reflexivity.
  - reflexivity.
  - vm_compute. reflexivity.
  - vm_compute. do 6 right. left. reflexivity.
Defined.

(** X7: a run that sends leaves, under the sequence's account id, a
    transporter with the account attached; a run that finds one there
    fetches no account, decrypts nothing and creates no transport. *)
Theorem transporter_created_once_in_sequence env e user w sq key e' user' sq' :
  sequence e = Some sq ->
  smtp_config_id sq = Some key ->
  sequence e' = Some sq' ->
  smtp_config_id sq' = Some key ->
  let out := run env (processEnrollment env e user) w in
  out.1 = inr (mkResult (enr_id e) success "Email sent successfully") ->
  (exists t, transporters out.2 !! key = Some t /\ is_Some (accountInfo t))
  /\ let made := calls_since out.2 (run env (processEnrollment env e' user') out.2).2 in
     List.filter is_select_account made = []
     /\ List.filter is_decrypt made = []
     /\ List.filter is_create_transport made = [].
Proof.
  intros Hsq Hkey Hsq' Hkey'. cbn zeta. intros Hres.
  assert (Hmap : exists t, transporters (run env (processEnrollment env e user) w).2 !! key
                           = Some t /\ is_Some (accountInfo t)).
  { revert Hres. unfold_advancer. rewrite Hsq, Hkey.
    change (default "" (Some key)) with key. exec_with.
    all: intros Hres; try discriminate Hres.
    all: try (eexists; split; [eassumption|eexists; eassumption]).
    all: eexists; split; [apply lookup_insert_eq|eexists; reflexivity]. }
  split; [exact Hmap|].
  destruct Hmap as (t & Ht & _).
  generalize dependent (run env (processEnrollment env e user) w).2. intros w1 Ht.
  unfold_advancer. rewrite Hsq', Hkey'.
  change (default "" (Some key)) with key. exec_with.
  all: calls; repeat split; reflexivity.
Qed.

Lemma transporter_created_once_in_sequence_witness :
  List.filter is_decrypt
    (calls_since
       (run Scenario.env0
          (processEnrollment Scenario.env0 (Scenario.enrollment_of Scenario.world_pair 0)
             Scenario.user0) Scenario.world_pair).2
       (run Scenario.env0
          (processEnrollment Scenario.env0 (Scenario.enrollment_of Scenario.world_pair 1)
             Scenario.user0)
          (run Scenario.env0
             (processEnrollment Scenario.env0 (Scenario.enrollment_of Scenario.world_pair 0)
                Scenario.user0) Scenario.world_pair).2).2) = [].
Proof.
  refine (proj1 (proj2 (proj2 (transporter_created_once_in_sequence Scenario.env0
            (Scenario.enrollment_of Scenario.world_pair 0) Scenario.user0
            Scenario.world_pair Scenario.sequence0 "acc"
            (Scenario.enrollment_of Scenario.world_pair 1) Scenario.user0
            Scenario.sequence0 _ _ _ _ _)))).
  - reflexivity.
  - reflexivity.
  - reflexivity.
  - reflexivity.
  - vm_compute. reflexivity.
Defined.

(** ** What a whole run reports *)

Lemma returns_Do_intro {A B} (Q : A -> Prop) (op : Op B) (k : B -> Prog A) :
  (forall b, returns Q (k b)) -> returns Q (Do op k).
Proof. intros H. exact H. Qed.

Lemma returns_Ret_intro {A} (Q : A -> Prop) (a : A) : Q a -> returns Q (Ret a).
Proof. intros H. exact H. Qed.

Lemma returns_Throw_intro {A} (Q : A -> Prop) msg : returns Q (@Throw A msg).
Proof. exact I. Qed.

Lemma safe_try_catch env {A} (Q : A -> Prop) (p : Prog A) (h : string -> A) :
  returns Q p -> (forall msg, Q (h msg)) ->
  safe env (fun _ => True) Q (try_catch p (fun msg => Ret (h msg))).
Proof.
  intros Hp Hh. induction p as [a|msg|B op k IH]; cbn [try_catch safe].
  - exact Hp.
  - apply Hh.
  - intros w _. split; [exact I|]. apply IH, Hp.
Qed.

Ltac returns_step :=
  first
    [ apply returns_Do_intro; intros ?
    | apply returns_Ret_intro; reflexivity
    | apply returns_Throw_intro
    | match goal with
      | |- context [match ?x with _ => _ end] =>
          lazymatch x with
          | context [match _ with _ => _ end] => fail
          | _ => destruct x
          end
      end ].

Lemma processBody_returns_own_id env e user :
  returns (fun r => res_id r = enr_id e) (processBody env e user).
Proof.
  unfold processBody, withTransporter, sendStep, updateEnrollment.
  repeat returns_step.
Qed.

Lemma processEnrollment_always_returns env e user :
  safe env (fun _ => True) (fun r => res_id r = enr_id e) (processEnrollment env e user).
Proof.
  unfold processEnrollment.
  apply (safe_try_catch env (fun r => res_id r = enr_id e) _
           (fun msg => mkResult (enr_id e) error msg)).
  - apply processBody_returns_own_id.
  - reflexivity.
Qed.

Lemma count_status_total rs :
  (count_status success rs + count_status error rs = Z.of_nat (length rs))%Z.
Proof.
  unfold count_status. induction rs as [|r rs IH]; [reflexivity|].
  assert (Hs : is_status success r = negb (is_status error r)).
  { unfold is_status. destruct (res_status r); reflexivity. }
  cbn [List.filter]. rewrite Hs.
  destruct (is_status error r); cbn [negb length]; lia.
Qed.

(** The answer of a run with something to do. *)
Lemma POST_answer env schedule user w :
  enroll_query_error env = None ->
  due_enrollments w <> [] ->
  exists rs,
    (POST env schedule (Some user) w).1
    = {| http_status := 200;
         json := {| body_success := Some true;
                    body_processed := Some (Z.of_nat (length rs));
                    body_successCount := Some (count_status success rs);
                    body_failureCount := Some (count_status error rs);
                    body_details := Some rs;
                    body_message := None;
                    body_error := None |} |}
    /\ length rs = length (due_enrollments w)
    /\ map res_id rs = map enr_id (due_enrollments w).
Proof.
  intros Hquery Hsome. unfold POST. rewrite Hquery.
  destruct (due_enrollments w) as [|e0 es] eqn:Hdue; [contradiction|].
  rewrite <- Hdue.
  destruct (process_batches_safe env schedule user (fun _ => True)
              (fun e r => res_id r = enr_id e)
              (slices (length (due_enrollments w)) (due_enrollments w)) 0 []
              (with_transporters ∅ w) I) as (rs & Hrs & Hpost & _).
  { apply slices_Forall, List.Forall_forall. intros e _.
    apply processEnrollment_always_returns. }
  rewrite slices_concat in Hpost by lia.
  destruct (process_batches env schedule user 0 _ [] (with_transporters ∅ w)) as [r w'].
  cbn [fst snd] in Hrs. subst r.
  exists rs. cbn [app fst]. split; [reflexivity|]. split.
  - symmetry. eapply Forall2_length. exact Hpost.
  - clear -Hpost. induction Hpost as [|e r es rs He _ IH]; [reflexivity|].
    cbn [map]. rewrite He, IH. reflexivity.
Qed.

(** X8: for an authenticated caller and a due query that succeeds, the
    runner answers 200 with [success = true] whatever happens to the
    single enrollments and in whatever order their awaited operations
    complete: [processed] is the number of due enrollments, [details]
    has one entry per due enrollment, in the order of the query and
    under its id, and the two counts, when present, add up to
    [processed]. *)
Theorem POST_reports_every_due_enrollment env schedule user w :
  enroll_query_error env = None ->
  let out := POST env schedule (Some user) w in
  http_status out.1 = 200%Z
  /\ body_success (json out.1) = Some true
  /\ body_error (json out.1) = None
  /\ body_processed (json out.1) = Some (Z.of_nat (length (due_enrollments w)))
  /\ (exists details,
         body_details (json out.1) = Some details
         /\ map res_id details = map enr_id (due_enrollments w))
  /\ match body_successCount (json out.1), body_failureCount (json out.1) with
     | Some s, Some f => (s + f = Z.of_nat (length (due_enrollments w)))%Z
     | None, None => due_enrollments w = []
     | _, _ => False
     end.
Proof.
  intros Hquery. cbn zeta.
  destruct (due_enrollments w) as [|e0 es] eqn:Hdue.
  { unfold POST. rewrite Hquery, Hdue. cbn. repeat split.
    exists []. split; reflexivity. }
  destruct (POST_answer env schedule user w Hquery) as (rs & -> & Hlen & Hids).
  { rewrite Hdue. discriminate. }
  rewrite Hdue in Hlen, Hids.
  cbn [json http_status body_success body_error body_processed
       body_failureCount body_successCount body_details].
  repeat split.
  - rewrite Hlen. reflexivity.
  - exists rs. split; [reflexivity| exact Hids].
  - rewrite count_status_total, Hlen. reflexivity.
Qed.

Lemma POST_reports_every_due_enrollment_witness :
  body_processed
    (json (POST Cases.env_smtp_down Scenario.schedule_fifo (Some Scenario.user0)
             Scenario.world_six).1) = Some 6%Z.
Proof.
  refine (proj1 (proj2 (proj2 (proj2
    (POST_reports_every_due_enrollment Cases.env_smtp_down Scenario.schedule_fifo
       Scenario.user0 Scenario.world_six _))))).
  reflexivity.
Defined.

(** X9: the batches of a run are the due list cut in order into pieces
    of five: none is empty, none has more than five members, and put
    end to end they give the list back. *)
Theorem slices_partition {A} (l : list A) :
  concat (slices (length l) l) = l
  /\ Forall (fun batch => (1 <= length batch <= BATCH_SIZE)%nat) (slices (length l) l)
  /\ (length (slices (length l) l) * BATCH_SIZE < length l + BATCH_SIZE)%nat.
Proof.
  split; [apply slices_concat; lia|].
  assert (H : forall fuel (k : list A), (length k <= fuel)%nat ->
            Forall (fun batch => (1 <= length batch <= BATCH_SIZE)%nat) (slices fuel k)
            /\ (length (slices fuel k) * BATCH_SIZE < length k + BATCH_SIZE)%nat).
  { induction fuel as [|fuel IH]; intros k Hk.
    - cbn. split; [constructor|unfold BATCH_SIZE; lia].
    - destruct k as [|a k]; [cbn; split; [constructor|unfold BATCH_SIZE; lia]|].
      cbn [slices].
      destruct (IH (drop BATCH_SIZE (a :: k))) as [Hall Hcount].
      { rewrite length_drop. cbn [length] in *. unfold BATCH_SIZE. lia. }
      split.
      + constructor; [|exact Hall].
        rewrite length_take. cbn [length]. unfold BATCH_SIZE. lia.
      + cbn [length] in *. rewrite length_drop in Hcount. cbn [length] in Hcount.
        unfold BATCH_SIZE in *. lia. }
  apply H. lia.
Qed.

(** * The single-message route *)

Section SendRouteFacts.
Import SendRoute.

Ltac events_made :=
  unfold events_since;
  cbn [note put_emails put_activities st_events st_emails st_clock
       st_smtp_configs st_activities];
  rewrite <- ?app_assoc;
  first [rewrite drop_app_length | rewrite drop_all].

Lemma errorMessage_not_empty e : errorMessage e <> "".
Proof.
  unfold errorMessage.
  repeat match goal with |- context [if ?b then _ else _] => destruct b eqn:? end;
    try discriminate.
  destruct (default "" (err_message e)); [discriminate|discriminate].
Qed.

(** X10: a request that lacks one of [to], [subject], [body_html] and
    [account_id], or has it empty, is answered 400 before anything is
    read or written. *)
Theorem send_requires_all_fields deps user req s :
  JS.truthy (default "" (req_to req)) = false
  \/ JS.truthy (default "" (req_subject req)) = false
  \/ JS.truthy (default "" (req_body_html req)) = false
  \/ JS.truthy (default "" (req_account_id req)) = false ->
  POST deps (Some user) (inr req) s = (failure 400 "Missing required fields", s).
Proof.
  intros H. unfold POST.
  destruct (JS.truthy (default "" (req_to req))),
    (JS.truthy (default "" (req_subject req))),
    (JS.truthy (default "" (req_body_html req))),
    (JS.truthy (default "" (req_account_id req))); try reflexivity.
  destruct H as [H|[H|[H|H]]]; discriminate H.
Qed.

Lemma send_requires_all_fields_witness :
  (POST deps_no_log (Some Scenario.user0) (inr request_no_subject) store0).2 = store0.
Proof.
  rewrite (send_requires_all_fields deps_no_log Scenario.user0 request_no_subject store0).
  - reflexivity.
  - right. left. reflexivity.
Defined.

(** X11: every answer of the route is either 200 with [success = true]
    and no error, or one of 400, 401, 404 and 500 with an error text
    that is not empty and no [success]. *)
Theorem send_answer_is_structured deps user request s :
  let answer := (POST deps user request s).1 in
  (rsp_status answer = 200%Z /\ rsp_success answer = Some true /\ rsp_error answer = None)
  \/ (In (rsp_status answer) [400; 401; 404; 500]%Z
      /\ rsp_success answer = None
      /\ exists msg, rsp_error answer = Some msg /\ msg <> "").
Proof.
  cbn zeta. unfold POST.
  repeat match goal with
         | |- context [match ?x with _ => _ end] =>
             lazymatch x with
             | context [match _ with _ => _ end] => fail
             | _ => destruct x eqn:?
             end
         end;
    cbn [fst failure rsp_status rsp_success rsp_error];
    first
      [ left; repeat split; reflexivity
      | right; split; [cbn; tauto|]; split; [reflexivity|];
        eexists; split; [reflexivity|];
        first [apply errorMessage_not_empty | discriminate] ].
Qed.

(** X12: the email-log row is created before the message is sent, and
    the message carries the request's HTML with the tracking made from
    the row's identifier.  The row ends up with that body where the
    table accepts the update of the body, and keeps the request's HTML
    where it refuses it; the message is sent either way.  When the
    row cannot be created the answer is 500, no transport is created
    and nothing is sent. *)
Theorem send_logs_before_sending deps user request s :
  let out := POST deps user request s in
  let made := events_since s out.2 in
  (forall i m delivered,
      made !! i = Some (EvSendMail m delivered) ->
      exists j row id,
        (j < i)%nat
        /\ made !! j = Some (EvInsertEmail row true)
        /\ id = dep_id_gen deps (length (st_emails s))
        /\ mail_html m
           = dep_injectTracking deps (sent_body_html row) id
               (JS.or_lit (dep_app_url deps) "http://localhost:3000")
        /\ exists stored,
             In stored (st_emails out.2)
             /\ sent_id stored = id
             /\ sent_body_html (sent_row stored)
                = if dep_update_fails deps id (mail_html m)
                  then sent_body_html row else mail_html m)
  /\ (forall row,
        In (EvInsertEmail row false) made ->
        out.1 = failure 500 "Failed to initialize email tracking"
        /\ List.filter is_send_event made = []
        /\ List.filter is_transport_event made = []
        /\ st_emails out.2 = st_emails s).
Proof.
  cbn zeta. unfold POST.
  repeat match goal with
         | |- context [match ?x with _ => _ end] =>
             lazymatch x with
             | context [match _ with _ => _ end] => fail
             | _ => destruct x eqn:?
             end
         end;
    cbn [fst snd note put_emails put_activities st_events st_emails st_clock
         st_smtp_configs st_activities].
  all: events_made; cbn [app].
  all: split;
    [ intros i m delivered Hi;
      repeat (destruct i as [|i]; simpl in Hi; try discriminate Hi)
    | intros row Hin; cbn [In] in Hin;
      repeat (destruct Hin as [Hin|Hin]; try discriminate Hin); try contradiction ].
  all: try (repeat split; reflexivity).
  all: injection Hi as <- _.
  all: exists 2%nat; do 2 eexists; split; [lia|]; split; [reflexivity|];
    split; [reflexivity|]; split; [reflexivity|].
  all: unfold emails_after;
    cbn [mail_html sent_body_html sent_id sent_row st_emails st_clock st_events
         st_activities st_smtp_configs note put_emails];
    match goal with
    | |- context [dep_update_fails ?d ?i ?b] => destruct (dep_update_fails d i b)
    end.
  all: eexists; split;
    [ first [ apply in_or_app; right; left; reflexivity
            | unfold update_body; rewrite map_app; apply in_or_app; right; left;
              reflexivity ]
    | cbn [sent_id sent_row sent_body_html]; rewrite ?String.eqb_refl; split; reflexivity ].
Qed.

Lemma send_logs_before_sending_witness :
  List.filter is_send_event
    (events_since store0 (POST deps_no_log (Some Scenario.user0) (inr request0) store0).2)
  = [].
Proof.
  refine (proj1 (proj2 (proj2 (send_logs_before_sending deps_no_log
            (Some Scenario.user0) (inr request0) store0) _ _))).
  vm_compute. do 2 right. left. reflexivity.
Defined.

(** X13: when the mail server refuses the message the answer is 500
    with the message of the [catch] block: the fixed text for [EAUTH]
    and for [ETIMEDOUT] whatever else the error carries, else the
    server's response, else the error's message.  The row written
    before the send stays in [emails], in folder "sent", with the
    body that was sent where the table accepted the update of the
    body, and no activity is recorded. *)
Theorem refused_send_is_classified deps user request s m :
  let out := POST deps user request s in
  In (EvSendMail m false) (events_since s out.2) ->
  (exists t e,
      dep_send_error deps t m = Some e
      /\ out.1 = failure 500 (errorMessage e)
      /\ (err_code e = Some "EAUTH" ->
          rsp_error out.1 = Some "Authentication failed. Check SMTP username/password.")
      /\ (err_code e = Some "ETIMEDOUT" ->
          rsp_error out.1 = Some "Connection timed out. Check SMTP Host/Port."))
  /\ st_activities out.2 = st_activities s
  /\ length (st_emails out.2) = S (length (st_emails s))
  /\ exists stored,
       In stored (st_emails out.2)
       /\ sent_folder (sent_row stored) = "sent"
       /\ sent_to_addr (sent_row stored) = mail_to m
       /\ (dep_update_fails deps (sent_id stored) (mail_html m) = false ->
           sent_body_html (sent_row stored) = mail_html m).
Proof.
  cbn zeta. unfold POST.
  repeat match goal with
         | |- context [match ?x with _ => _ end] =>
             lazymatch x with
             | context [match _ with _ => _ end] => fail
             | _ => destruct x eqn:?
             end
         end;
    cbn [fst snd note put_emails put_activities st_events st_emails st_clock
         st_smtp_configs st_activities].
  all: events_made; cbn [app In].
  all: intros Hin; repeat (destruct Hin as [Hin|Hin]; try discriminate Hin);
    try contradiction.
  injection Hin as <-.
  split.
  { do 2 eexists. split; [eassumption|]. split; [reflexivity|].
    cbn [failure rsp_error]. unfold errorMessage.
    split; intros Hc; rewrite Hc; cbn; reflexivity. }
  split; [reflexivity|].
  unfold emails_after.
  cbn [mail_html mail_to sent_body_html sent_id sent_row st_emails st_clock st_events
       st_activities st_smtp_configs note put_emails].
  match goal with
  | |- context [dep_update_fails deps ?i ?b] => destruct (dep_update_fails deps i b) eqn:Hup
  end.
  - split; [rewrite length_app; cbn [length]; lia|].
    eexists. split; [apply in_or_app; right; left; reflexivity|].
    cbn [sent_id sent_row sent_folder sent_to_addr]. repeat split.
    intros Hno. rewrite Hup in Hno. discriminate Hno.
  - split; [unfold update_body; rewrite length_map, length_app; cbn [length]; lia|].
    eexists. split.
    + unfold update_body. rewrite map_app. apply in_or_app. right. left. reflexivity.
    + cbn [sent_id]. rewrite String.eqb_refl. repeat split.
Qed.

Lemma refused_send_is_classified_witness :
  length (st_emails (POST deps_auth_refused (Some Scenario.user0) (inr request0) store0).2)
  = 1%nat.
Proof.
  refine (proj1 (proj2 (proj2
    (refused_send_is_classified deps_auth_refused (Some Scenario.user0) (inr request0) store0
       {| mail_from := senderOf Scenario.account0;
          mail_to := "ann@y.io";
          mail_subject := "Hello";
          mail_html := "<p>Hi</p><img src=http://localhost:3000/open/mail-0>" |} _)))).
  vm_compute. do 5 right. left. reflexivity.
Defined.

End SendRouteFacts.

(** * The browser side *)

Section ClientFacts.
Import Client.

Lemma is_due_now now t r :
  (now <= t)%Z -> row_status r = active -> row_next_send_at r = Some now ->
  is_due t r = true.
Proof.
  intros Hle Hs Hn. unfold is_due. rewrite Hs, Hn. apply Z.leb_le. exact Hle.
Qed.

(** X14: adding contacts to a sequence hands the table one object per
    selected contact.  When the table accepts them, one row per
    selected contact is added, in the order of the selection and
    without looking for a row the contact may already have, each at
    step 0, active and due as soon as the server's clock has reached
    the browser's; the toast reports their number and the selection is
    cleared.  When the table refuses them, and only then, nothing is
    changed, the error toast is shown and the selection is kept. *)
Theorem added_enrollments_are_due db now sequenceId organizationId selectedToAdd w t :
  selectedToAdd <> [] ->
  (now <= t)%Z ->
  let out := handleAddEnrollments db now sequenceId organizationId selectedToAdd w in
  match insert_error db (newEnrollments now sequenceId selectedToAdd organizationId) with
  | None =>
      out.1.1 = Some (ToastSuccess
                        ("Enrolled " +:+ pretty (length selectedToAdd) +:+ " contacts") None)
      /\ out.1.2 = []
      /\ exists added,
           sequence_enrollments out.2 = (sequence_enrollments w ++ added)%list
           /\ map row_contact_id added = selectedToAdd
           /\ Forall (fun r => row_sequence_id r = sequenceId
                               /\ row_current_step r = 0%Z
                               /\ is_due t r = true) added
  | Some _ =>
      out.1.1 = Some (ToastError "Failed to enroll contacts" None)
      /\ out.1.2 = selectedToAdd
      /\ out.2 = w
  end.
Proof.
  intros Hsel Hle. cbn zeta. unfold handleAddEnrollments.
  destruct selectedToAdd as [|c0 cs] eqn:Hl; [contradiction|]. rewrite <- Hl. clear Hl Hsel.
  unfold useEnrollInSequence. cbn zeta.
  destruct (insert_error db _) as [msg|].
  { repeat split. }
  cbn [fst snd]. split; [reflexivity|]. split; [reflexivity|].
  eexists. split; [reflexivity|]. unfold newEnrollments. split.
  - change (@map) with (@fmap list _). rewrite fmap_imap, imap_fmap.
    transitivity (imap (const id) selectedToAdd).
    + apply imap_ext. intros i x _. reflexivity.
    + rewrite imap_const. apply list_fmap_id.
  - apply List.Forall_forall. intros r Hin.
    apply list_elem_of_In, elem_of_lookup_imap_1 in Hin as (i & n & -> & Hn).
    apply list_lookup_fmap_Some in Hn as (c & -> & _).
    split; [reflexivity|]. split; [reflexivity|].
    apply (is_due_now now); [exact Hle| reflexivity | reflexivity].
Qed.

Lemma added_enrollments_are_due_witness :
  length (sequence_enrollments
            (handleAddEnrollments db0 Scenario.now0 "s1" "org" ["ann"; "ann"]
               Scenario.world_idle).2) = 3%nat.
Proof.
  destruct (added_enrollments_are_due db0 Scenario.now0 "s1" "org" ["ann"; "ann"]
              Scenario.world_idle Scenario.now0) as (_ & _ & added & Hrows & Hids & _).
  - discriminate.
  - lia.
  - rewrite Hrows, length_app, <- (length_map row_contact_id added), Hids. reflexivity.
Defined.

Lemma update_only_row id u v rows r :
  rows_of id rows = [r] ->
  apply_update v (apply_update u r) = r ->
  update_where_id id v (update_where_id id u rows) = rows.
Proof.
  unfold rows_of, update_where_id. intros Hrows Hback.
  rewrite map_map.
  rewrite <- (map_id rows) at 2. apply map_ext_in. intros x Hx.
  destruct (String.eqb (row_id x) id) eqn:Hid.
  - rewrite row_id_apply_update, Hid.
    assert (Hin : In x (List.filter (fun r0 => String.eqb (row_id r0) id) rows)).
    { apply filter_In. split; assumption. }
    rewrite Hrows in Hin. destruct Hin as [<-|[]]. exact Hback.
  - rewrite Hid. reflexivity.
Qed.

Lemma rows_of_update_same id u rows :
  rows_of id (update_where_id id u rows) = map (apply_update u) (rows_of id rows).
Proof.
  unfold rows_of, update_where_id.
  induction rows as [|r rows IH]; [reflexivity|].
  cbn [map List.filter].
  destruct (String.eqb (row_id r) id) eqn:Hid.
  - rewrite row_id_apply_update, Hid. cbn [map]. f_equal. exact IH.
  - rewrite Hid. exact IH.
Qed.

(** X15: pausing an active enrollment takes it out of every later due
    query and leaves the rows of the other enrollments as they are;
    resuming it afterwards puts the table back as it was, step and
    send date included. *)
Theorem pause_then_resume_restores db w r t :
  rows_of (row_id r) (sequence_enrollments w) = [r] ->
  row_status r = active ->
  (forall u, update_error db (row_id r) u = None) ->
  let paused_row := apply_update (status_only paused) r in
  let halted := handleToggleStatus db (with_relations w r) w in
  let resumed := handleToggleStatus db (with_relations halted.2 paused_row) halted.2 in
  halted.1 = ToastSuccess "Enrollment paused" None
  /\ rows_of (row_id r) (sequence_enrollments halted.2) = [paused_row]
  /\ Forall (fun x => row_id x <> row_id r)
       (List.filter (is_due t) (sequence_enrollments halted.2))
  /\ (forall other, other <> row_id r ->
        rows_of other (sequence_enrollments halted.2)
        = rows_of other (sequence_enrollments w))
  /\ resumed.1 = ToastSuccess "Enrollment resumed" None
  /\ sequence_enrollments resumed.2 = sequence_enrollments w.
Proof.
  intros Hrow Hact Hok. cbn zeta.
  assert (Hhalt : handleToggleStatus db (with_relations w r) w
                  = (ToastSuccess "Enrollment paused" None,
                     with_enrollments
                       (update_where_id (row_id r) (status_only paused)
                          (sequence_enrollments w)) w)).
  { unfold handleToggleStatus, useUpdateEnrollment.
    cbn [with_relations enr_status enr_id]. rewrite Hact, Hok, Hrow. reflexivity. }
  rewrite Hhalt. cbn [fst snd with_enrollments sequence_enrollments].
  assert (Hrow' : rows_of (row_id r)
                    (update_where_id (row_id r) (status_only paused) (sequence_enrollments w))
                  = [apply_update (status_only paused) r]).
  { rewrite rows_of_update_same, Hrow. reflexivity. }
  split; [reflexivity|]. split; [exact Hrow'|]. split.
  { apply List.Forall_forall. intros x Hx Hid.
    apply filter_In in Hx as [Hin Hdue].
    assert (Hx : In x (rows_of (row_id r)
                         (update_where_id (row_id r) (status_only paused)
                            (sequence_enrollments w)))).
    { apply filter_In. split; [exact Hin|]. apply String.eqb_eq. exact Hid. }
    rewrite Hrow' in Hx. destruct Hx as [<-|[]].
    unfold is_due in Hdue. cbn in Hdue. discriminate Hdue. }
  split.
  { intros other Hne. apply rows_of_update_other. intros Heq. apply Hne. symmetry. exact Heq. }
  unfold handleToggleStatus, useUpdateEnrollment.
  cbn [with_relations enr_status enr_id apply_update status_only upd_status default
       from_option id row_id with_enrollments sequence_enrollments].
  rewrite Hok.
  unfold status_only in Hrow' |- *. rewrite Hrow'.
  cbn [fst snd with_enrollments sequence_enrollments].
  split; [reflexivity|].
  apply (update_only_row _ _ _ _ r Hrow).
  destruct r as [i s c st stt n u]. cbn in Hact. subst stt. reflexivity.
Qed.

Lemma pause_then_resume_restores_witness :
  sequence_enrollments
    (handleToggleStatus db0
       (with_relations Scenario.world_pair
          (apply_update (status_only paused) (Scenario.row0 "ann" "s1" 0 None)))
       (handleToggleStatus db0
          (with_relations Scenario.world_pair (Scenario.row0 "ann" "s1" 0 None))
          Scenario.world_pair).2).2
  = sequence_enrollments Scenario.world_pair.
Proof.
  refine (proj2 (proj2 (proj2 (proj2 (proj2
    (pause_then_resume_restores db0 Scenario.world_pair
       (Scenario.row0 "ann" "s1" 0 None) 0 _ _ _)))))).
  - reflexivity.
  - reflexivity.
  - reflexivity.
Defined.

Lemma useUpdateEnrollment_rows db id u w :
  sequence_enrollments (useUpdateEnrollment db id u w).2
  = if bool_decide (update_error db id u = None)
       && (length (rows_of id (sequence_enrollments w)) =? 1)%nat
    then update_where_id id u (sequence_enrollments w)
    else sequence_enrollments w.
Proof.
  unfold useUpdateEnrollment.
  destruct (update_error db id u) as [msg|]; [reflexivity|].
  cbn [bool_decide decide_rel andb].
  destruct (rows_of id (sequence_enrollments w)) as [|r [|r' l]]; reflexivity.
Qed.

Lemma rows_of_update_length id id' u rows :
  length (rows_of id (update_where_id id' u rows)) = length (rows_of id rows).
Proof.
  unfold rows_of, update_where_id.
  induction rows as [|r rows IH]; [reflexivity|].
  cbn [map List.filter].
  destruct (String.eqb (row_id r) id') eqn:Hid;
    [rewrite row_id_apply_update|];
    destruct (String.eqb (row_id r) id); cbn [length]; rewrite ?IH; reflexivity.
Qed.

Lemma fold_bulk_update db u ids w :
  (forall r, apply_update u (apply_update u r) = apply_update u r) ->
  sequence_enrollments (fold_left (fun w id => (useUpdateEnrollment db id u w).2) ids w)
  = map (fun r => if bulk_changes db u ids (sequence_enrollments w) r
                  then apply_update u r else r)
      (sequence_enrollments w).
Proof.
  intros Hidem. induction ids as [|id ids IH] in w |- *.
  - cbn [fold_left]. unfold bulk_changes. cbn [existsb andb]. symmetry. apply map_id.
  - cbn [fold_left]. rewrite IH, useUpdateEnrollment_rows.
    destruct (bool_decide (update_error db id u = None)
              && (length (rows_of id (sequence_enrollments w)) =? 1)%nat) eqn:Hc.
    + unfold update_where_id at 2. rewrite map_map. apply map_ext. intros r.
      unfold bulk_changes. cbn [existsb].
      destruct (String.eqb (row_id r) id) eqn:Hid.
      * apply String.eqb_eq in Hid. rewrite row_id_apply_update, Hid, Hc.
        cbn [orb andb].
        destruct (existsb _ ids && _); [apply Hidem | reflexivity].
      * rewrite rows_of_update_length. cbn [orb]. reflexivity.
    + apply map_ext. intros r. unfold bulk_changes. cbn [existsb].
      destruct (String.eqb (row_id r) id) eqn:Hid; [|reflexivity].
      apply String.eqb_eq in Hid. rewrite Hid, Hc, andb_false_r. reflexivity.
Qed.

Lemma existsb_eqb_In x ids : existsb (String.eqb x) ids = true <-> In x ids.
Proof.
  rewrite existsb_exists. split.
  - intros (y & Hin & Heq). apply String.eqb_eq in Heq. subst. exact Hin.
  - intros Hin. exists x. split; [exact Hin | apply String.eqb_refl].
Qed.

(** X16: a bulk pause or resume sets the status of exactly the rows
    whose id is selected, accepted by the table and names one row, and
    of no other; a refused update is passed over in silence, so the
    success toast appears and the selection is cleared whenever
    something was selected, even when every update was refused and the
    table is as before.  When every selected id is accepted, none of
    them is in a due query after a bulk pause. *)
Theorem bulk_status_change_skips_refused db action selectedIds w :
  selectedIds <> [] ->
  action <> delete ->
  let s := match action with resume => active | _ => paused end in
  let out := handleBulkAction db action selectedIds w in
  out.1.1 = Some (ToastSuccess
                    ("Bulk action " +:+ dquote +:+ action_name action +:+ dquote
                     +:+ " completed") None)
  /\ out.1.2 = []
  /\ sequence_enrollments out.2
     = map (fun r => if bulk_changes db (status_only s) selectedIds
                          (sequence_enrollments w) r
                     then apply_update (status_only s) r else r)
         (sequence_enrollments w)
  /\ ((forall id, In id selectedIds -> update_error db id (status_only s) <> None) ->
      sequence_enrollments out.2 = sequence_enrollments w)
  /\ (action = pause ->
      (forall id, In id selectedIds ->
         update_error db id (status_only paused) = None
         /\ length (rows_of id (sequence_enrollments w)) = 1%nat) ->
      forall t, Forall (fun r => ~ In (row_id r) selectedIds)
                  (List.filter (is_due t) (sequence_enrollments out.2))).
Proof.
  intros Hsel Hact. cbn zeta. unfold handleBulkAction.
  destruct selectedIds as [|i0 is0] eqn:Hl; [contradiction|]. rewrite <- Hl. clear Hl Hsel.
  cbn [fst snd].
  assert (Hrows :
    sequence_enrollments (fold_left (bulk_step db action) selectedIds w)
    = map (fun r => if bulk_changes db
                         (status_only match action with resume => active | _ => paused end)
                         selectedIds (sequence_enrollments w) r
                    then apply_update
                           (status_only match action with resume => active | _ => paused end) r
                    else r)
        (sequence_enrollments w)).
  { destruct action; [| |contradiction];
      apply (fold_bulk_update db _ selectedIds w); intros r; reflexivity. }
  split; [reflexivity|]. split; [reflexivity|]. split; [exact Hrows|]. split.
  - intros Hrefused. rewrite Hrows. rewrite <- (map_id (sequence_enrollments w)) at 2.
    apply map_ext. intros r. unfold bulk_changes.
    destruct (existsb (String.eqb (row_id r)) selectedIds) eqn:Hin; [|reflexivity].
    apply existsb_eqb_In, Hrefused in Hin.
    rewrite bool_decide_eq_false_2 by exact Hin. reflexivity.
  - intros -> Hall t. rewrite Hrows. apply List.Forall_forall. intros r Hr Hin.
    apply filter_In in Hr as [Hr Hdue].
    apply in_map_iff in Hr as (r0 & <- & _).
    unfold bulk_changes in Hdue, Hin.
    destruct (existsb (String.eqb (row_id r0)) selectedIds) eqn:Hex.
    + pose proof (proj1 (existsb_eqb_In _ _) Hex) as Hin0.
      destruct (Hall _ Hin0) as [Hok Hone].
      rewrite bool_decide_eq_true_2, Hone in Hdue by exact Hok.
      cbn in Hdue. discriminate Hdue.
    + cbn [andb] in Hin. apply existsb_eqb_In in Hin. congruence.
Qed.

Lemma bulk_status_change_skips_refused_witness :
  sequence_enrollments
    (handleBulkAction db_read_only pause ["e-ann"; "e-bob"] Scenario.world_pair).2
  = sequence_enrollments Scenario.world_pair.
Proof.
  refine (proj1 (proj2 (proj2 (proj2
    (bulk_status_change_skips_refused db_read_only pause ["e-ann"; "e-bob"]
       Scenario.world_pair _ _)))) _).
  - discriminate.
  - discriminate.
  - intros id _. discriminate.
Defined.

Lemma fold_bulk_delete db ids w :
  sequence_enrollments (fold_left (fun w id => (useDeleteEnrollment db id w).2) ids w)
  = List.filter (fun r => negb (bulk_deletes db ids r)) (sequence_enrollments w).
Proof.
  induction ids as [|id ids IH] in w |- *.
  - cbn [fold_left]. unfold bulk_deletes. cbn [existsb andb negb].
    induction (sequence_enrollments w) as [|r l IHl]; [reflexivity|].
    cbn [List.filter]. f_equal. exact IHl.
  - cbn [fold_left]. rewrite IH. unfold useDeleteEnrollment.
    destruct (delete_error db id) as [msg|] eqn:Hd;
      cbn [snd with_enrollments sequence_enrollments].
    + induction (sequence_enrollments w) as [|r l IHl]; [reflexivity|].
      cbn [List.filter]. rewrite IHl.
      assert (Heq : bulk_deletes db (id :: ids) r = bulk_deletes db ids r).
      { unfold bulk_deletes. cbn [existsb].
        destruct (String.eqb (row_id r) id) eqn:Hid; [|reflexivity].
        apply String.eqb_eq in Hid. rewrite Hid, Hd. cbn. rewrite ?andb_false_r. reflexivity. }
      rewrite Heq. reflexivity.
    + induction (sequence_enrollments w) as [|r l IHl]; [reflexivity|].
      cbn [List.filter]. unfold bulk_deletes at 2. cbn [existsb].
      destruct (String.eqb (row_id r) id) eqn:Hid.
      * apply String.eqb_eq in Hid. rewrite Hid, Hd. cbn. exact IHl.
      * cbn [negb orb List.filter]. fold (bulk_deletes db ids r).
        destruct (bulk_deletes db ids r); cbn [negb]; [|f_equal]; exact IHl.
Qed.

(** X17: a bulk removal deletes exactly the rows whose id is selected
    and whose deletion the table accepts, keeps every other row in its
    place, and shows the success toast and clears the selection
    whatever the table answered. *)
Theorem bulk_delete_skips_refused db selectedIds w :
  selectedIds <> [] ->
  let out := handleBulkAction db delete selectedIds w in
  out.1.1 = Some (ToastSuccess
                    ("Bulk action " +:+ dquote +:+ "delete" +:+ dquote +:+ " completed") None)
  /\ out.1.2 = []
  /\ sequence_enrollments out.2
     = List.filter (fun r => negb (bulk_deletes db selectedIds r)) (sequence_enrollments w)
  /\ (forall r, In r (sequence_enrollments w) -> ~ In (row_id r) selectedIds ->
        In r (sequence_enrollments out.2)).
Proof.
  intros Hsel. cbn zeta. unfold handleBulkAction.
  destruct selectedIds as [|i0 is0] eqn:Hl; [contradiction|]. rewrite <- Hl. clear Hl Hsel.
  cbn [fst snd].
  assert (Hrows := fold_bulk_delete db selectedIds w).
  change (fun w id => (useDeleteEnrollment db id w).2) with (bulk_step db delete) in Hrows.
  split; [reflexivity|]. split; [reflexivity|]. split; [exact Hrows|].
  intros r Hin Hnot. rewrite Hrows. apply filter_In. split; [exact Hin|].
  unfold bulk_deletes.
  destruct (existsb (String.eqb (row_id r)) selectedIds) eqn:Hex; [|reflexivity].
  apply existsb_eqb_In in Hex. contradiction.
Qed.

Lemma bulk_delete_skips_refused_witness :
  map row_id
    (sequence_enrollments
       (handleBulkAction db0 delete ["e-bob"; "e-none"] Scenario.world_pair).2)
  = ["e-ann"].
Proof.
  refine (eq_trans (f_equal (map row_id) (proj1 (proj2 (proj2
    (bulk_delete_skips_refused db0 ["e-bob"; "e-none"] Scenario.world_pair _))))) _).
  - discriminate.
  - reflexivity.
Defined.

(** X18: what the sequences page shows after a run started by an
    authenticated user: the info toast with the route's message when
    nothing was due, otherwise the success toast with two counts that
    are numbers and add up to the number of due enrollments; the
    error toast, with a description that is not empty, only when the
    due query failed. *)
Theorem process_toast_matches_run env schedule user w :
  let answer := (POST env schedule (Some user) w).1 in
  let toast := handleProcessSequences (Some (json answer)) in
  match enroll_query_error env with
  | Some _ =>
      exists description,
        toast = ToastError "Processing failed" (Some description) /\ description <> ""
  | None =>
      match due_enrollments w with
      | [] =>
          toast = ToastInfo "No sequences due for processing"
                    (Some "No enrollments due for processing")
      | _ =>
          exists sent failed,
            toast = ToastSuccess "Sequence processing complete"
                      (Some ("Report: " +:+ pretty sent +:+ " sent, "
                             +:+ pretty failed +:+ " failed."))
            /\ (0 <= sent)%Z /\ (0 <= failed)%Z
            /\ (sent + failed = Z.of_nat (length (due_enrollments w)))%Z
      end
  end.
Proof.
  cbn zeta.
  destruct (enroll_query_error env) as [msg|] eqn:Hq.
  { unfold POST. rewrite Hq. eexists. split; [reflexivity|].
    cbn [fst json errorResponse body_error].
    destruct msg as [is_Error text]. cbn [instanceof_Error query_message].
    destruct is_Error; [|cbn; discriminate].
    destruct text; cbn; discriminate. }
  destruct (due_enrollments w) as [|e0 es] eqn:Hdue.
  { unfold POST. rewrite Hq, Hdue. reflexivity. }
  destruct (POST_answer env schedule user w Hq) as (rs & -> & Hlen & _).
  { rewrite Hdue. discriminate. }
  rewrite Hdue in Hlen.
  exists (count_status success rs), (count_status error rs).
  unfold handleProcessSequences.
  cbn [json body_success body_processed body_successCount body_failureCount default
       from_option id shown].
  rewrite bool_decide_eq_false_2.
  2:{ rewrite Hlen. cbn [length]. intros H. injection H as H. lia. }
  split; [reflexivity|]. unfold count_status at 1 2.
  split; [lia|]. split; [lia|].
  rewrite count_status_total, Hlen. reflexivity.
Qed.

(** X19: the row menu offers Resume for a completed enrollment too.
    Taken on one that is past the last step of its sequence, it makes
    the row active again, and the next run sends no message and asks
    for the row to be completed again; where the table accepts that
    update the row is completed once more. *)
Theorem resumed_completed_enrollment_completes_again db env user w r c sq :
  rows_of (row_id r) (sequence_enrollments w) = [r] ->
  row_status r <> active ->
  update_error db (row_id r) (status_only active) = None ->
  contacts w !! row_contact_id r = Some c ->
  JS.truthy (default "" (contact_email c)) = true ->
  email_sequences w !! row_sequence_id r = Some sq ->
  (Z.of_nat (length (steps sq)) <= row_current_step r)%Z ->
  (forall u, enrollment_update_refused env (row_id r) u = false) ->
  let active_row := apply_update (status_only active) r in
  let resumed := handleToggleStatus db (with_relations w r) w in
  let ran := run env (processEnrollment env (with_relations resumed.2 active_row) user)
               resumed.2 in
  resumed.1 = ToastSuccess "Enrollment resumed" None
  /\ rows_of (row_id r) (sequence_enrollments resumed.2) = [active_row]
  /\ ran.1 = inr (mkResult (row_id r) success "Sequence completed (no more steps)")
  /\ List.filter is_send (calls_since resumed.2 ran.2) = []
  /\ Forall (fun x => row_status x = completed)
       (rows_of (row_id r) (sequence_enrollments ran.2)).
Proof.
  intros Hrow Hst Hok Hc Hmail Hsq Hlen Haccepted. cbn zeta.
  assert (Hres : handleToggleStatus db (with_relations w r) w
                 = (ToastSuccess "Enrollment resumed" None,
                    with_enrollments
                      (update_where_id (row_id r) (status_only active)
                         (sequence_enrollments w)) w)).
  { unfold handleToggleStatus, useUpdateEnrollment.
    cbn [with_relations enr_status enr_id].
    destruct (row_status r) eqn:Hs; [contradiction| | |]; rewrite Hok, Hrow; reflexivity. }
  rewrite Hres. cbn [fst snd].
  split; [reflexivity|].
  split.
  { cbn [with_enrollments sequence_enrollments].
    rewrite rows_of_update_same, Hrow. reflexivity. }
  assert (Hge : (row_current_step r >=? Z.of_nat (length (steps sq)))%Z = true).
  { rewrite Z.geb_leb. apply Z.leb_le. exact Hlen. }
  unfold_advancer.
  cbn [with_relations contact sequence current_step enr_id with_enrollments contacts
       email_sequences apply_update status_only row_contact_id row_sequence_id
       row_current_step upd_current_step default from_option id row_id].
  rewrite Hc, Hmail, Hsq. cbn [negb]. rewrite Hge.
  exec_with.
  split; [reflexivity|].
  split; [calls; reflexivity|].
  rewrite enrollments_after_accepted by apply Haccepted.
  apply rows_of_updated. reflexivity.
Qed.

Lemma resumed_completed_enrollment_completes_again_witness :
  map row_status
    (rows_of "e-ann"
       (sequence_enrollments
          (handleToggleStatus db0
             (with_relations Cases.world_done (Cases.row_done))
             Cases.world_done).2))
  = [active].
Proof.
  refine (eq_trans (f_equal (map row_status) (proj1 (proj2
    (resumed_completed_enrollment_completes_again db0 Scenario.env0 Scenario.user0
       Cases.world_done Cases.row_done (Scenario.contact0 "ann") Scenario.sequence0
       _ _ _ _ _ _ _ _)))) _).
  - reflexivity.
  - discriminate.
  - reflexivity.
  - reflexivity.
  - reflexivity.
  - reflexivity.
  - vm_compute. discriminate.
  - intros u. reflexivity.
  - reflexivity.
Defined.

End ClientFacts.
